(** * The abstract query generator of sequelize

    A shallow embedding of [lib/dialects/abstract/query-generator/index.js]:
    identifier quoting, table references, value escaping, JSON path
    extraction and the recursive [quote] of ORDER BY / GROUP BY targets,
    followed by the properties stated about them.

    JavaScript strings are modelled as [string] (sequences of 8-bit
    characters standing for code units; case mapping is the ASCII one),
    plain objects used as dictionaries as [gmap string _] (their own
    properties; a read by key also finds the members inherited from
    [Object.prototype], see [JSObject]), exceptions as the [Err] branch of
    [Result]. *)

From Stdlib Require Import String Ascii List ZArith Bool Lia.
From stdpp Require Import base option gmap strings list.

#[local] Set Warnings "-register-all".
#[local] Open Scope string_scope.

(** ** JavaScript string primitives *)

Module JS.

(** One-character strings. *)
Definition chr (c : ascii) : string := String c EmptyString.

Definition dot : ascii := "."%char.
Definition dquote : ascii := "034"%char.
Definition squote : ascii := "039"%char.
Definition backtick : ascii := "096"%char.
Definition backslash : ascii := "092"%char.

(** A double quote as a text. *)
Definition dq : string := chr dquote.

(** [s.indexOf(c) !== -1] *)
Fixpoint includes (c : ascii) (s : string) : bool :=
  match s with
  | EmptyString => false
  | String a s' => if Ascii.eqb a c then true else includes c s'
  end.

(** [s.split(c)] for a one-character separator: never empty. *)
Fixpoint split (c : ascii) (s : string) : list string :=
  match s with
  | EmptyString => [EmptyString]
  | String a s' =>
      if Ascii.eqb a c then EmptyString :: split c s'
      else match split c s' with
           | [] => [chr a]
           | w :: ws => String a w :: ws
           end
  end.

(** [l.join(sep)] on an array of strings. *)
Fixpoint join (sep : string) (l : list string) : string :=
  match l with
  | [] => EmptyString
  | [x] => x
  | x :: rest => x +:+ sep +:+ join sep rest
  end.

(** [l.slice(0, l.length - 1)] *)
Definition init {A} (l : list A) : list A := removelast l.

(** [l[l.length - 1]], [undefined] on the empty array. *)
Definition last {A} (l : list A) : option A := List.last (map Some l) None.

(** [l.slice(i)] *)
Definition slice {A} (i : nat) (l : list A) : list A := drop i l.

Definition upper_char (c : ascii) : ascii :=
  let n := nat_of_ascii c in
  if (97 <=? n)%nat && (n <=? 122)%nat then ascii_of_nat (n - 32) else c.

(** [s.toUpperCase()] *)
Fixpoint toUpperCase (s : string) : string :=
  match s with
  | EmptyString => EmptyString
  | String a s' => String (upper_char a) (toUpperCase s')
  end.

(** [l.indexOf(x)], [None] for [-1]. *)
Fixpoint indexOf (x : string) (l : list string) : option nat :=
  match l with
  | [] => None
  | y :: rest => if String.eqb y x then Some 0%nat
                 else option_map S (indexOf x rest)
  end.

Definition is_digit (c : ascii) : bool :=
  let n := nat_of_ascii c in (48 <=? n)%nat && (n <=? 57)%nat.

(** Longest prefix of digits and what follows it. *)
Fixpoint span_digits (s : string) : string * string :=
  match s with
  | EmptyString => (EmptyString, EmptyString)
  | String a s' =>
      if is_digit a then let '(d, r) := span_digits s' in (String a d, r)
      else (EmptyString, s)
  end.

(** Truthiness of a string: every string but the empty one. *)
Definition truthy (s : string) : bool := negb (String.eqb s EmptyString).

(** Truthiness of a property that may be absent. *)
Definition truthy_opt (o : option string) : bool :=
  match o with Some s => truthy s | None => false end.

(** [a || b] on a possibly absent string and a string. *)
Definition or_else (a : option string) (b : string) : string :=
  match a with
  | Some s => if truthy s then s else b
  | None => b
  end.

End JS.

(** ** Failures *)

Inductive Error : Type :=
| AssociationNotFound (modelName : string)
    (* Error: Unable to find a valid association for model, '<name>' *)
| RemovedFeatureError
    (* Error: The `{raw: ...}` syntax is no longer supported. *)
| UnknownStructure (rendering : string)
    (* Error: Unknown structure passed to order / group: <util.inspect> *)
| UnsupportedDialect (dialect : string)
    (* Error: Unsupported <dialect> for JSON operations *)
| TypeError
    (* the runtime's TypeError: a property of undefined or null is read,
       or a value that is no text is used as one *)
| ValidationError (message : string)
    (* thrown by a data type's validate *)
| ExternalError (message : string).
    (* thrown by a collaborator outside this file *)

Inductive Result (A : Type) : Type :=
| Ok (a : A)
| Err (e : Error).
Arguments Ok {A} a.
Arguments Err {A} e.

Definition bind {A B} (r : Result A) (f : A -> Result B) : Result B :=
  match r with
  | Ok a => f a
  | Err e => Err e
  end.

Notation "'let*' x ':=' r 'in' k" := (bind r (fun x => k))
  (at level 10, x name, r at level 100, k at level 200).

(** ** The dialect and the generator object *)

(** [this._dialect]: the name, [supports.schemas], and the character the
    dialect wraps identifiers in. *)
Record Dialect : Type := {
  dialect_name : string;
  supports_schemas : bool;
  identifierQuoteChar : ascii
}.

(** [this.options] (the options of the sequelize instance). *)
Record SequelizeOptions : Type := {
  opt_quoteIdentifiers : bool;
  opt_timezone : string
}.

Record QueryGenerator : Type := {
  _dialect : Dialect;
  options : SequelizeOptions;
  typeValidation : bool
}.

(** [this.dialect = options._dialect.name] *)
Definition dialect (g : QueryGenerator) : string := dialect_name (_dialect g).

(** ** helpers/quote *)

Module QuoteHelper.

Definition wrap (q : ascii) (s : string) : string :=
  String q (s +:+ JS.chr q).

Fixpoint ends_with (q : ascii) (s : string) : bool :=
  match s with
  | EmptyString => false
  | String a EmptyString => Ascii.eqb a q
  | String _ s' => ends_with q s'
  end.

(** Modelled from the spec: [helpers/quote.js] is not part of the
    sources at hand.  "detects whether text is already wrapped in the
    dialect quote character(s)": the text opens with the quote
    character and closes with another occurrence of it. *)
Definition isIdentifierQuoted (q : ascii) (identifier : string) : bool :=
  match identifier with
  | String a rest => Ascii.eqb a q && ends_with q rest
  | EmptyString => false
  end.

(** Modelled from the spec: [helpers/quote.js] is not part of the
    sources at hand.  "wraps name in the dialect's quote character
    unless quoting is globally disabled; force overrides the global
    disable flag", and "re-quoting an already-quoted identifier with
    force=false is a no-op".  The source hands the helper the dialect
    name; the model hands it the dialect's quote character. *)
Definition quoteIdentifier (q : ascii) (identifier : string)
           (force quoteIdentifiers : bool) : string :=
  if force then wrap q identifier
  else if isIdentifierQuoted q identifier then identifier
  else if quoteIdentifiers then wrap q identifier
  else identifier.

End QuoteHelper.

(** ** Identifier quoting *)

Section Identifiers.

Variable g : QueryGenerator.

Definition quoteIdentifier (identifier : string) (force : bool) : string :=
  QuoteHelper.quoteIdentifier (identifierQuoteChar (_dialect g)) identifier
    force (opt_quoteIdentifiers (options g)).

Definition isIdentifierQuoted (identifier : string) : bool :=
  QuoteHelper.isIdentifierQuoted (identifierQuoteChar (_dialect g)) identifier.

(** Split a dotted name and quote what precedes the last dot and what
    follows it. *)
Definition quoteIdentifiers (identifiers : string) : string :=
  if JS.includes JS.dot identifiers then
    let parts := JS.split JS.dot identifiers in
    let head := JS.join "." (JS.init parts) in
    let tail := default EmptyString (JS.last parts) in
    quoteIdentifier head false +:+ "." +:+ quoteIdentifier tail false
  else quoteIdentifier identifiers false.

End Identifiers.

(** ** Data model *)

(** Instances of [Utils.SequelizeMethod]: [sequelize.literal(val)], and
    the other wrappers (fn, col, cast, where, json), which this file only
    hands on to [handleSequelizeMethod]. *)
Inductive SequelizeMethod : Type :=
| Literal (val : string)
| OtherMethod (description : string).

(** Values handed to [escape]. *)
Inductive Value : Type :=
| VNull
| VUndefined
| VBool (b : bool)
| VNumber (n : Z)
| VString (s : string)
| VArray (items : list Value)
| VMethod (m : SequelizeMethod)
| VObject (description : string).   (* dates, buffers, any other object *)

Definition value_truthy (v : Value) : bool :=
  match v with
  | VNull | VUndefined => false
  | VBool b => b
  | VNumber n => negb (n =? 0)%Z
  | VString s => JS.truthy s
  | VArray _ | VMethod _ | VObject _ => true
  end.

(** The [options] argument of [escape]. *)
Record EscapeOptions : Type := {
  isList : bool;
  operation : option string
}.

(** [options = options || {}] *)
Definition no_options : EscapeOptions := {| isList := false; operation := None |}.

(** The second argument of a data type's [stringify]:
    [{ escape: simpleEscape, field, timezone, operation }]; the field is
    represented by its column name. *)
Record StringifyContext : Type := {
  ctx_escape : Value -> Result string;
  ctx_field : string;
  ctx_timezone : string;
  ctx_operation : option string
}.

(** A data type object: optional [validate] and [stringify], whether it
    sets [escape] to [false], whether it is an instance of
    [DataTypes.JSON]. *)
Record DataType : Type := {
  validate : option (Value -> EscapeOptions -> Result unit);
  stringify : option (Value -> StringifyContext -> Result string);
  escape_is_false : bool;
  instanceof_JSON : bool
}.

(** An entry of [Model.rawAttributes], also the [field] argument of
    [escape]. *)
Record Attribute : Type := {
  field : string;
  type : option DataType
}.

(** An association, with the properties that are read here: the model
    it leads to, its alias, and the model of its [through] table if it
    has one. *)
Record Association_ (M : Type) : Type := mkAssociation {
  target : M;
  as_ : string;
  through : option M
}.
Arguments mkAssociation {M}.
Arguments target {M}.
Arguments as_ {M}.
Arguments through {M}.

(** A model class.  The association graph is unfolded into a tree, deep
    enough for the paths that are followed. *)
Inductive Model : Type :=
  mkModel (name : string)
          (rawAttributes : option (gmap string Attribute))
          (associations : option (gmap string (Association_ Model))).

Abbreviation Association := (Association_ Model).

Definition name (m : Model) : string :=
  match m with mkModel n _ _ => n end.
Definition rawAttributes (m : Model) : option (gmap string Attribute) :=
  match m with mkModel _ r _ => r end.
Definition associations (m : Model) : option (gmap string Association) :=
  match m with mkModel _ _ a => a end.

(** [m1 === m2] on model classes: models are told apart by their name. *)
Definition same_model (m1 m2 : Model) : bool := String.eqb (name m1) (name m2).

(** What [quote] may be handed, or find in an array, told apart by the
    tests the code makes.  Objects that bear several of the marks at once
    (say [raw] together with [_modelAttribute]) are left out. *)
Inductive Item : Type :=
| IString (s : string)
| IArray (items : list Item)
| IModel (m : Model)                               (* a model class *)
| IInclude (model : Model) (as' : option string)   (* { model, as } *)
| IAssociation (a : Association)
| IModelAttribute (owner : Model) (fieldName : string)
                                  (* an object with _modelAttribute set *)
| IMethod (m : SequelizeMethod)
| IRawObject (raw : string)                        (* { raw } *)
| INullish                                         (* null, undefined *)
| IOther (truthy : bool) (rendering : string).     (* anything else *)

Definition item_truthy (i : Item) : bool :=
  match i with
  | IString s => JS.truthy s
  | INullish => false
  | IOther t _ => t
  | _ => true
  end.

(** A table given by name or by a descriptor object. *)
Record TableDescriptor : Type := {
  td_schema : option string;
  td_tableName : string;
  td_delimiter : option string;
  td_as : option string;
  td_name : option string
}.

Inductive TableParam : Type :=
| TableName (n : string)
| TableObject (d : TableDescriptor).

(** The [alias] argument of [quoteTable]. *)
Inductive AliasArg : Type :=
| AliasAbsent
| AliasTrue
| AliasString (s : string).

(** ** Collaborators outside this file *)

Class Externals : Type := {
  (** [SqlString.escape(value, timezone, dialect)] *)
  SqlString_escape : Value -> string -> string -> Result string;
  (** [model.getAssociationForAlias(target, alias)], [None] for null *)
  getAssociationForAlias : Model -> Model -> option string -> option Association;
  (** [handleSequelizeMethod] on the wrappers other than literals *)
  handleOtherMethod : string -> Result string;
  (** [util.inspect] *)
  inspect : Item -> string
}.

(** ** lodash's [_.toPath] *)

Module Lodash.

(** Longest prefix free of dots and brackets, and what follows it. *)
Fixpoint span_prop (s : string) : string * string :=
  match s with
  | EmptyString => (EmptyString, EmptyString)
  | String a s' =>
      if Ascii.eqb a "." || Ascii.eqb a "[" || Ascii.eqb a "]"
      then (EmptyString, s)
      else let '(p, r) := span_prop s' in (String a p, r)
  end.

(** After an opening bracket: an optional minus sign, digits, optionally
    a dot and digits, and the closing bracket. *)
Definition match_number (s : string) : option (string * string) :=
  let '(sign, s1) := match s with
                     | String "-" r => ("-", r)
                     | _ => (EmptyString, s)
                     end in
  let '(d1, r1) := JS.span_digits s1 in
  if negb (JS.truthy d1) then None else
  match r1 with
  | String "]" r => Some (sign +:+ d1, r)
  | String "." r2 =>
      let '(d2, r3) := JS.span_digits r2 in
      if negb (JS.truthy d2) then None else
      match r3 with
      | String "]" r => Some (sign +:+ d1 +:+ "." +:+ d2, r)
      | _ => None
      end
  | _ => None
  end.

Definition line_terminator (c : ascii) : bool :=
  Ascii.eqb c "010" || Ascii.eqb c "013".

(** After an opening bracket and a quote character [q]: characters up to
    the next [q] followed by a closing bracket, a backslash taking the
    next character with it. *)
Fixpoint match_quoted (q : ascii) (s acc : string) : option (string * string) :=
  match s with
  | EmptyString => None
  | String c r =>
      if Ascii.eqb c q then
        match r with
        | String "]" r' => Some (acc, r')
        | _ => None
        end
      else if Ascii.eqb c JS.backslash then
        match r with
        | String d r' =>
            if line_terminator d then None
            else match_quoted q r' (acc +:+ String c (JS.chr d))
        | EmptyString => None
        end
      else match_quoted q r (acc +:+ JS.chr c)
  end.

(** Unescaping of a quoted key: two backslashes become one, a single
    backslash is dropped. *)
Fixpoint unescape (s : string) : string :=
  match s with
  | EmptyString => EmptyString
  | String c r =>
      if Ascii.eqb c JS.backslash then
        match r with
        | String d r' =>
            if Ascii.eqb d JS.backslash then String d (unescape r')
            else unescape r
        | EmptyString => EmptyString
        end
      else String c (unescape r)
  end.

(** The bracket alternative of the property-name pattern, after the
    opening bracket. *)
Definition match_bracket (s : string) : option (string * string) :=
  match s with
  | String q r =>
      if Ascii.eqb q JS.dquote || Ascii.eqb q JS.squote then
        match match_quoted q r EmptyString with
        | Some (sub, rest) => Some (unescape sub, rest)
        | None => None
        end
      else match_number s
  | EmptyString => None
  end.

(** The empty alternative of the property-name pattern: a dot or an
    empty pair of brackets is ahead, followed by another one or by the
    end of the string. *)
Definition empty_key_ahead (s : string) : bool :=
  let next := match s with
              | String "." r => Some r
              | String "[" (String "]" r) => Some r
              | _ => None
              end in
  match next with
  | Some EmptyString => true
  | Some (String "." _) => true
  | Some (String "[" (String "]" _)) => true
  | _ => false
  end.

(** The keys the property-name pattern finds from left to right. *)
Fixpoint scan_keys (fuel : nat) (s : string) : list string :=
  match fuel with
  | O => []
  | S fuel' =>
      match s with
      | EmptyString => []
      | String c r =>
          let '(p, rest) := span_prop s in
          if JS.truthy p then p :: scan_keys fuel' rest
          else
            match (if Ascii.eqb c "[" then match_bracket r else None) with
            | Some (key, rest') => key :: scan_keys fuel' rest'
            | None =>
                if empty_key_ahead s then EmptyString :: scan_keys fuel' r
                else scan_keys fuel' r
            end
      end
  end.

Definition stringToPath (s : string) : list string :=
  (match s with String "." _ => [EmptyString] | _ => [] end)
    ++ scan_keys (String.length s) s.

End Lodash.

(** The [path] argument: a dotted string or an array of keys. *)
Inductive PathArg : Type :=
| PathString (s : string)
| PathArray (keys : list string).

Definition toPath (path : PathArg) : list string :=
  match path with
  | PathArray keys => keys
  | PathString s => Lodash.stringToPath s
  end.

(** ** Utils *)

Module Utils.

(** Modelled from the spec: [lib/utils.js] is not part of the sources at
    hand.  "each segment individually double-quote-wrapped": the text
    between two copies of the tick character. *)
Definition addTicks (s : string) (tickChar : ascii) : string :=
  String tickChar (s +:+ JS.chr tickChar).

End Utils.

(** ** Property reads on plain objects *)

Module JSObject.

(** The names that every plain object inherits from [Object.prototype]:
    reading one of them on an object that has no property of its own by
    that name gives the inherited member, a function or, for [__proto__],
    the prototype itself. *)
Definition prototype_keys : list string :=
  [ "constructor"; "__defineGetter__"; "__defineSetter__"; "hasOwnProperty";
    "__lookupGetter__"; "__lookupSetter__"; "isPrototypeOf";
    "propertyIsEnumerable"; "toString"; "valueOf"; "__proto__";
    "toLocaleString" ].

Definition inherited (key : string) : bool :=
  existsb (String.eqb key) prototype_keys.

(** What [o[key]] reads on a plain object used as a dictionary: a
    property of its own, an inherited member (truthy, with none of the
    properties the code goes on to read), or [undefined]. *)
Inductive Property (V : Type) : Type :=
| Own (v : V)
| Inherited
| Undefined.
Arguments Own {V} v.
Arguments Inherited {V}.
Arguments Undefined {V}.

Definition get {V} (o : gmap string V) (key : string) : Property V :=
  match o !! key with
  | Some v => Own v
  | None => if inherited key then Inherited else Undefined
  end.

(** [o !== undefined && o[key]] *)
Definition get_defined {V} (o : option (gmap string V)) (key : string)
  : Property V :=
  match o with
  | Some m => get m key
  | None => Undefined
  end.

End JSObject.

(** ** Calls to collaborators made while escaping a value *)

Inductive Call : Type :=
| CallValidate (v : Value)
| CallStringify (v : Value)
| CallSqlEscape (v : Value)
| CallHandleMethod (m : SequelizeMethod).

Definition Traced (A : Type) : Type := (list Call * Result A)%type.

Definition tret {A} (a : A) : Traced A := ([], Ok a).

Definition tcall {A} (c : Call) (r : Result A) : Traced A := ([c], r).

Definition tbind {A B} (m : Traced A) (f : A -> Traced B) : Traced B :=
  match m with
  | (log, Ok a) => let '(log', r) := f a in ((log ++ log')%list, r)
  | (log, Err e) => (log, Err e)
  end.

Notation "'do*' x ':=' m 'in' k" := (tbind m (fun x => k))
  (at level 10, x name, m at level 100, k at level 200).

(** ** The methods of the generator *)

Section Generator.

Context `{Externals}.
Variable g : QueryGenerator.

(** Modelled from the spec: [handleSequelizeMethod] is mixed into the
    class from a file that is not part of the sources at hand.  A literal
    is rendered "verbatim, unescaped"; the other wrappers are left to the
    collaborator. *)
Definition handleSequelizeMethod (m : SequelizeMethod) : Result string :=
  match m with
  | Literal val => Ok val
  | OtherMethod d => handleOtherMethod d
  end.

(** [this.sequelize.literal(val)] *)
Definition literal (val : string) : SequelizeMethod := Literal val.

(** *** quoteTable *)

(** The alias once [alias === true] has been resolved: a text, the
    descriptor object itself, or none. *)
Inductive AliasValue : Type :=
| AVString (s : string)
| AVObject
| AVAbsent.

Definition resolve_alias (param : TableParam) (alias : AliasArg) : AliasValue :=
  match alias with
  | AliasTrue =>
      (* alias = param.as || param.name || param *)
      match param with
      | TableName n => AVString n
      | TableObject d =>
          if JS.truthy_opt (td_as d) then AVString (default EmptyString (td_as d))
          else if JS.truthy_opt (td_name d)
               then AVString (default EmptyString (td_name d))
               else AVObject
      end
  | AliasString s => AVString s
  | AliasAbsent => AVAbsent
  end.

Definition quoteTable (param : TableParam) (alias : AliasArg) : Result string :=
  let alias := resolve_alias param alias in
  let table :=
    match param with
    | TableObject d =>
        if supports_schemas (_dialect g) then
          (if JS.truthy_opt (td_schema d)
           then quoteIdentifier g (default EmptyString (td_schema d)) false +:+ "."
           else EmptyString)
            +:+ quoteIdentifier g (td_tableName d) false
        else
          quoteIdentifier g
            ((if JS.truthy_opt (td_schema d)
              then default EmptyString (td_schema d) +:+ JS.or_else (td_delimiter d) "."
              else EmptyString)
               +:+ td_tableName d) false
    | TableName n => quoteIdentifier g n false
    end in
  match alias with
  | AVString a =>
      if JS.truthy a then Ok (table +:+ " AS " +:+ quoteIdentifier g a false)
      else Ok table
  | AVObject => Err TypeError   (* an object where an identifier is due *)
  | AVAbsent => Ok table
  end.

(** *** escape *)

Definition generic_escape (value : Value) : Traced string :=
  tcall (CallSqlEscape value)
        (SqlString_escape value (opt_timezone (options g)) (dialect g)).

(** [for (const item of value) field.type.validate(item, options)] *)
Fixpoint validate_each (v : Value -> EscapeOptions -> Result unit)
         (items : list Value) (opts : EscapeOptions) : Traced unit :=
  match items with
  | [] => tret tt
  | item :: rest =>
      do* _ := tcall (CallValidate item) (v item opts) in
      validate_each v rest opts
  end.

(** [{ escape: simpleEscape, field, timezone, operation }], where
    [simpleEscape] is [SqlString.escape] with the timezone and the dialect
    filled in. *)
Definition stringifyContext (fld : option Attribute) (opts : EscapeOptions)
  : StringifyContext :=
  let simpleEscape v :=
    SqlString_escape v (opt_timezone (options g)) (dialect g) in
  {| ctx_escape := simpleEscape;
     ctx_field := default EmptyString (field <$> fld);
     ctx_timezone := opt_timezone (options g);
     ctx_operation := operation opts |}.

Definition escape_run (value : Value) (fld : option Attribute)
           (opts : option EscapeOptions) : Traced string :=
  let opts := default no_options opts in
  match value with
  | VNull | VUndefined => generic_escape value
  | VMethod m => tcall (CallHandleMethod m) (handleSequelizeMethod m)
  | _ =>
      match fld ≫= type with
      | Some ty =>
          do* _ :=
            (match validate ty with
             | Some v =>
                 if typeValidation g && value_truthy value then
                   match value with
                   | VArray items =>
                       if isList opts then validate_each v items opts
                       else tcall (CallValidate value) (v value opts)
                   | _ => tcall (CallValidate value) (v value opts)
                   end
                 else tret tt
             | None => tret tt
             end) in
          match stringify ty with
          | Some str =>
              do* text :=
                tcall (CallStringify value)
                      (str value (stringifyContext fld opts)) in
              if escape_is_false ty then tret text
              else generic_escape (VString text)
          | None => generic_escape value
          end
      | None => generic_escape value
      end
  end.

Definition escape (value : Value) (fld : option Attribute)
           (opts : option EscapeOptions) : Result string :=
  snd (escape_run value fld opts).

Definition escape_calls (value : Value) (fld : option Attribute)
           (opts : option EscapeOptions) : list Call :=
  fst (escape_run value fld opts).

(** *** jsonPathExtractionQuery *)

(** The replacement made for sqlite: a dot and digits, followed by a dot
    or by the end of the text, become the digits between brackets. *)
Fixpoint bracket_indices (fuel : nat) (s : string) : string :=
  match fuel with
  | O => s
  | S fuel' =>
      match s with
      | EmptyString => EmptyString
      | String c r =>
          if Ascii.eqb c "." then
            let '(d, rest) := JS.span_digits r in
            if JS.truthy d
               && match rest with
                  | EmptyString => true
                  | String c' _ => Ascii.eqb c' "."
                  end
            then "[" +:+ d +:+ "]" +:+ bracket_indices fuel' rest
            else String c (bracket_indices fuel' r)
          else String c (bracket_indices fuel' r)
      end
  end.

Definition quotedColumn (column : string) : string :=
  if isIdentifierQuoted g column then column else quoteIdentifier g column false.

Definition jsonPathExtractionQuery (column : string) (path : PathArg)
  : Result string :=
  let paths := toPath path in
  if String.eqb (dialect g) "mysql" then
    let paths := map (fun subPath => Utils.addTicks subPath JS.dquote) paths in
    let pathStr := JS.join "." ("$" :: paths) in
    Ok ("(" +:+ quotedColumn column +:+ "->>'" +:+ pathStr +:+ "')")
  else if String.eqb (dialect g) "sqlite" then
    let joined := JS.join "." ("$" :: paths) in
    let* pathStr :=
      escape (VString (bracket_indices (String.length joined) joined)) None None in
    Ok ("json_extract(" +:+ quotedColumn column +:+ ", " +:+ pathStr +:+ ")")
  else if String.eqb (dialect g) "postgres" then
    let* pathStr := escape (VString ("{" +:+ JS.join "," paths +:+ "}")) None None in
    Ok ("(" +:+ quotedColumn column +:+ "#>>" +:+ pathStr +:+ ")")
  else Err (UnsupportedDialect (dialect g)).

(** *** quote *)

Definition validOrderOptions : list string :=
  [ "ASC"; "DESC"; "ASC NULLS LAST"; "DESC NULLS LAST";
    "ASC NULLS FIRST"; "DESC NULLS FIRST"; "NULLS FIRST"; "NULLS LAST" ].

(** [previousModel] and [previousAssociation] of one round of the first
    loop; [previous] is [None] for [collection[-1]]. *)
Definition previous_of (parent : option Model) (previous : option Item)
  : option Model * option Association :=
  if negb (from_option item_truthy false previous) && bool_decide (is_Some parent)
  then (parent, None)
  else match previous with
       | Some (IAssociation a) => (Some (target a), Some a)
       | _ => (None, None)
       end.

(** A model, or a [{model, as}] pair, turned into the association that
    leads to it from [previousModel]. *)
Definition resolve_model (previousModel : Model)
           (previousAssociation : option Association) (item : Item)
  : Result Item :=
  let found :=
    match item with
    | IModel m => Some (m, None)
    | IInclude m a => Some (m, a)
    | _ => None
    end in
  match found with
  | Some (model, as') =>
      let through_is_model :=
        match previousAssociation ≫= through with
        | Some t => same_model t model
        | None => false
        end in
      let item' :=
        if negb (JS.truthy_opt as') && through_is_model
        then Some (mkAssociation model (name model) None)
        else match getAssociationForAlias previousModel model as' with
             | Some a => Some a
             | None => getAssociationForAlias previousModel model (Some (name model))
             end in
      match item' with
      | Some a => Ok (IAssociation a)
      | None => Err (AssociationNotFound (name model))
      end
  | None => Ok item
  end.

(** The last case of a string of the array: a dotted string whose first
    segment is read as an attribute, without a check that it is there,
    and compiled into a JSON extraction when its type is JSON. *)
Definition rewrite_dotted (m : Model) (item : string) : Result Item :=
  match rawAttributes m with
  | Some attributes =>
      if JS.includes JS.dot item then
        let itemSplit := JS.split JS.dot item in
        match JSObject.get attributes (default EmptyString (head itemSplit)) with
        | JSObject.Undefined => Err TypeError   (* .type of undefined *)
        | JSObject.Inherited => Ok (IString item)   (* its .type is undefined *)
        | JSObject.Own attr =>
            if from_option instanceof_JSON false (type attr) then
              let identifier :=
                quoteIdentifiers g (name m +:+ "." +:+ field attr) in
              let path := JS.slice 1 itemSplit in
              let* sql := jsonPathExtractionQuery identifier (PathArray path) in
              Ok (IMethod (literal sql))
            else Ok (IString item)
        end
      else Ok (IString item)
  | None => Ok (IString item)
  end.

(** A string of the array: an order token, the name of an association, an
    attribute with another column name, or a path into a JSON column.
    [associations[item]] and [rawAttributes[item]] are property reads:
    an inherited member is taken for an association (the item becomes
    that member) and for an attribute (the item becomes its [field],
    which is undefined). *)
Definition rewrite_string (previousModel : option Model) (index : nat)
           (item : string) : Result Item :=
  let orderIndex := JS.indexOf (JS.toUpperCase item) validOrderOptions in
  match (if (0 <? index)%nat then orderIndex else None) with
  | Some k =>
      Ok (IMethod (literal (" " +:+ nth k validOrderOptions EmptyString)))
  | None =>
      match previousModel with
      | None => Ok (IString item)
      | Some m =>
          match JSObject.get_defined (associations m) item with
          | JSObject.Own a => Ok (IAssociation a)
          | JSObject.Inherited =>
              Ok (IOther true ("Object.prototype." +:+ item))
          | JSObject.Undefined =>
              match JSObject.get_defined (rawAttributes m) item with
              | JSObject.Own attr =>
                  if negb (String.eqb item (field attr))
                  then Ok (IString (field attr))
                  else rewrite_dotted m item
              | JSObject.Inherited => Ok INullish
              | JSObject.Undefined => rewrite_dotted m item
              end
          end
      end
  end.

(** One round of the first loop: the value stored back at [index]. *)
Definition rewrite_item (parent : option Model) (index : nat)
           (previous : option Item) (item : Item) : Result Item :=
  let '(previousModel, previousAssociation) := previous_of parent previous in
  let* item :=
    match previousModel with
    | Some m => resolve_model m previousAssociation item
    | None => Ok item
    end in
  match item with
  | IString s => rewrite_string previousModel index s
  | _ => Ok item
  end.

(** The first loop, from [index] on; [previous] is the element already
    stored at [index - 1]. *)
Fixpoint rewrite_from (parent : option Model) (index : nat)
         (previous : option Item) (items : list Item) : Result (list Item) :=
  match items with
  | [] => Ok []
  | item :: rest =>
      let* item' := rewrite_item parent index previous item in
      let* rest' := rewrite_from parent (S index) (Some item') rest in
      Ok (item' :: rest')
  end.

Definition rewrite (parent : option Model) (collection : list Item)
  : Result (list Item) :=
  rewrite_from parent 0 None collection.

(** [tableNames[i] = v] on an array with holes. *)
Definition array_set (i : nat) (v : string) (l : list (option string))
  : list (option string) :=
  if decide (i < length l)%nat then <[i := Some v]> l
  else (l ++ replicate (i - length l) None ++ [Some v])%list.

(** [tableNames.join(connector)]: a hole joins as the empty string. *)
Definition join_names (connector : string) (l : list (option string)) : string :=
  JS.join connector (map (default EmptyString) l).

(** The second loop, from [i] on, [items] being [collection.slice(i)]:
    the index it stops at and the table names gathered. *)
Fixpoint scan (i : nat) (items : list Item) (tableNames : list (option string))
  : Result (nat * list (option string)) :=
  match items with
  | [] | [_] => Ok (i, tableNames)
  | item :: rest =>
      match item with
      | IString _ | IModelAttribute _ _ | IMethod _ => Ok (i, tableNames)
      | INullish => Err TypeError   (* ._modelAttribute of null *)
      | IAssociation a => scan (S i) rest (array_set i (as_ a) tableNames)
      | _ => scan (S i) rest tableNames
      end
  end.

(** What the SQL text starts with. *)
Definition prefix (parent : option Model) (connector : string)
           (collection : list Item) (i : nat) (tableNames : list (option string))
  : string :=
  if (0 <? i)%nat then
    quoteIdentifier g (join_names connector tableNames) false +:+ "."
  else
    match head collection, parent with
    | Some (IString _), Some p => quoteIdentifier g (name p) false +:+ "."
    | _, _ => EmptyString
    end.

(** [items.forEach(item => { sql += f(item) })] *)
Fixpoint append_each (f : Item -> option (Result string)) (items : list Item)
         (sql : string) : option (Result string) :=
  match items with
  | [] => Some (Ok sql)
  | item :: rest =>
      match f item with
      | None => None
      | Some (Err e) => Some (Err e)
      | Some (Ok text) => append_each f rest (sql +:+ text)
      end
  end.

(** [quote], the recursion bounded by [fuel]; [None] when it runs out. *)
Fixpoint quote_fuel (fuel : nat) (collection : Item) (parent : option Model)
         (connector : option string) : option (Result string) :=
  match fuel with
  | O => None
  | S fuel' =>
      let connector := JS.or_else connector "." in
      match collection with
      | IString s => Some (Ok (quoteIdentifiers g s))
      | IArray items =>
          match rewrite parent items with
          | Err e => Some (Err e)
          | Ok items =>
              match scan 0 items [] with
              | Err e => Some (Err e)
              | Ok (i, tableNames) =>
                  append_each
                    (fun item => quote_fuel fuel' item parent (Some connector))
                    (JS.slice i items)
                    (prefix parent connector items i tableNames)
              end
          end
      | INullish => Some (Err TypeError)   (* ._modelAttribute of null *)
      | IModelAttribute owner fieldName =>
          Some (let* table := quoteTable (TableName (name owner)) AliasAbsent in
                Ok (table +:+ "." +:+ quoteIdentifier g fieldName false))
      | IMethod m => Some (handleSequelizeMethod m)
      | IRawObject raw =>
          Some (Err (if JS.truthy raw then RemovedFeatureError
                     else UnknownStructure (inspect collection)))
      | IModel _ | IInclude _ _ | IAssociation _ | IOther _ _ =>
          Some (Err (UnknownStructure (inspect collection)))
      end
  end.

(** How deep arrays are nested in an item. *)
Fixpoint depth (c : Item) : nat :=
  match c with
  | IArray items => S (foldr (fun item d => Nat.max (depth item) d) 0%nat items)
  | _ => 0%nat
  end.

(** [quote(collection, parent, connector)]; the fuel is enough
    ([quote_fuel_enough] below), the last branch is never taken. *)
Definition quote (collection : Item) (parent : option Model)
           (connector : option string) : Result string :=
  match quote_fuel (S (depth collection)) collection parent connector with
  | Some r => r
  | None => Err TypeError
  end.

End Generator.

(** * The other methods of the generator *)

(** ** The constructor *)

(** The [options] of the constructor: the options of the sequelize
    instance when one is given, the dialect when one is given. *)
Record ConstructorOptions : Type := {
  given_sequelize : option SequelizeOptions;
  given_dialect : option Dialect
}.

Inductive ConstructorError : Type :=
| InitializedWithoutSequelize
    (* Error: QueryGenerator initialized without options.sequelize *)
| InitializedWithoutDialect.
    (* Error: QueryGenerator initialized without options._dialect *)

(** [new QueryGenerator(options)]; [typeValidation] is not set by the
    constructor and reads as falsy. *)
Definition construct (o : ConstructorOptions) : ConstructorError + QueryGenerator :=
  match given_sequelize o with
  | None => inl InitializedWithoutSequelize
  | Some opts =>
      match given_dialect o with
      | None => inl InitializedWithoutDialect
      | Some d => inr {| _dialect := d; options := opts; typeValidation := false |}
      end
  end.

(** ** extractTableDetails *)

(** A plain object read for [schema], [tableName] and [delimiter]. *)
Record DetailsObject : Type := {
  do_schema : option string;
  do_tableName : option string;
  do_delimiter : option string
}.

(** The [tableName] argument: absent, a name, or a plain object. *)
Inductive TableArg : Type :=
| TAAbsent
| TAName (n : string)
| TAObject (o : DetailsObject).

(** The [options] argument. *)
Record DetailsOptions : Type := {
  given_schema : option string;
  given_delimiter : option string
}.

(** The object returned; [tableName] is [None] for [undefined]. *)
Record TableDetails : Type := {
  details_schema : string;
  details_tableName : option string;
  details_delimiter : string
}.

Definition empty_object : DetailsObject :=
  {| do_schema := None; do_tableName := None; do_delimiter := None |}.

Definition extractTableDetails (tableName : TableArg)
           (opts : option DetailsOptions) : TableDetails :=
  let opts := default {| given_schema := None; given_delimiter := None |} opts in
  (* tableName = tableName || {} *)
  let tableName :=
    match tableName with
    | TAAbsent => TAObject empty_object
    | TAName n => if JS.truthy n then TAName n else TAObject empty_object
    | TAObject o => TAObject o
    end in
  let own (read : DetailsObject -> option string) : option string :=
    match tableName with
    | TAObject o => read o
    | _ => None      (* a property of a string *)
    end in
  {| details_schema :=
       JS.or_else (own do_schema) (JS.or_else (given_schema opts) "public");
     details_tableName :=
       match tableName with
       | TAObject o => do_tableName o
       | TAName n => Some n
       | TAAbsent => None
       end;
     details_delimiter :=
       JS.or_else (own do_delimiter) (JS.or_else (given_delimiter opts) ".") |}.

(** The object returned, handed in again as an argument. *)
Definition details_object (d : TableDetails) : DetailsObject :=
  {| do_schema := Some (details_schema d);
     do_tableName := details_tableName d;
     do_delimiter := Some (details_delimiter d) |}.

(** The object returned, as [quoteTable] reads it, when it has a table
    name. *)
Definition details_table (d : TableDetails) : option TableDescriptor :=
  match details_tableName d with
  | Some n => Some {| td_schema := Some (details_schema d);
                      td_tableName := n;
                      td_delimiter := Some (details_delimiter d);
                      td_as := None; td_name := None |}
  | None => None
  end.

(** ** addSchema *)

(** The object handed to [addSchema] (a model, or an object with the same
    properties). *)
Record SchemaSource : Type := {
  _schema : option string;
  src_tableName : option string;
  src_name : option string;
  _schemaDelimiter : option string
}.

Inductive SchemaParam : Type :=
| SchemaOfName (n : string)
| SchemaOfObject (o : SchemaSource).

(** [param.x || param]: a name, or the parameter itself. *)
Inductive NameOrSelf : Type :=
| Named (n : string)
| Self.

Definition or_self (p : SchemaParam) (read : SchemaSource -> option string)
  : NameOrSelf :=
  match p with
  | SchemaOfName n => Named n     (* a string has none of the properties *)
  | SchemaOfObject o =>
      if JS.truthy_opt (read o) then Named (default EmptyString (read o))
      else Self
  end.

(** The object built when a schema is set; its [toString] is
    [schema_toString] below. *)
Record SchemaDescriptor : Type := {
  sd_tableName : NameOrSelf;
  sd_table : NameOrSelf;
  sd_name : NameOrSelf;
  sd_schema : string;
  sd_delimiter : string
}.

Inductive AddSchemaResult : Type :=
| WithoutSchema (table : NameOrSelf)
| WithSchema (d : SchemaDescriptor).

Definition addSchema (param : SchemaParam) : AddSchemaResult :=
  let schema := match param with
                | SchemaOfName _ => None
                | SchemaOfObject o => _schema o
                end in
  if negb (JS.truthy_opt schema) then WithoutSchema (or_self param src_tableName)
  else
    WithSchema
      {| sd_tableName := or_self param src_tableName;
         sd_table := or_self param src_tableName;
         sd_name := or_self param src_name;
         sd_schema := default EmptyString schema;
         sd_delimiter :=
           JS.or_else (match param with
                       | SchemaOfName _ => None
                       | SchemaOfObject o => _schemaDelimiter o
                       end) "." |}.

(** The object of [addSchema] as [quoteTable] and [extractTableDetails]
    read it, when its table is a name; the parameter itself in the place
    of a name is left out. *)
Definition schema_table (d : SchemaDescriptor) : option TableDescriptor :=
  match sd_tableName d with
  | Named n =>
      Some {| td_schema := Some (sd_schema d);
              td_tableName := n;
              td_delimiter := Some (sd_delimiter d);
              td_as := None;
              td_name := match sd_name d with Named m => Some m | Self => None end |}
  | Self => None
  end.

Definition schema_object (d : SchemaDescriptor) : option DetailsObject :=
  match sd_tableName d with
  | Named n => Some {| do_schema := Some (sd_schema d);
                       do_tableName := Some n;
                       do_delimiter := Some (sd_delimiter d) |}
  | Self => None
  end.

(** [toString() { return self.quoteTable(this); }] *)
Definition schema_toString (g : QueryGenerator) (d : SchemaDescriptor)
  : option (Result string) :=
  (fun t => quoteTable g (TableObject t) AliasAbsent) <$> schema_table d.

(** ** nameIndexes *)

(** An element of [index.fields]: a name, or an object read for [name]
    and [attribute]. *)
Inductive IndexField : Type :=
| FieldName (n : string)
| FieldObject (name attribute : option string).

(** An index: its own property [name] when it has one, and its fields. *)
Record Index : Type := {
  ix_name : option string;
  ix_fields : list IndexField
}.

(** The [rawTablename] argument. *)
Inductive RawTablename : Type :=
| RawName (n : string)
| RawObject (tableName : option string)
| RawNull
| RawUndefined.

Section NameIndexes.

(** [Utils.underscore], of a file that is not among the sources. *)
Variable underscore : string -> string.

(** Text of a value that may be [undefined], in a concatenation. *)
Definition text_of (o : option string) : string := default "undefined" o.

Definition onlyAttributeName (f : IndexField) : string :=
  match f with
  | FieldName n => n
  | FieldObject n a => JS.or_else n (default EmptyString a)
  end.

Definition nameIndex (rawTablename : option string) (index : Index) : Index :=
  match ix_name index with
  | Some _ => index
  | None =>
      let onlyAttributeNames := map onlyAttributeName (ix_fields index) in
      {| ix_name := Some (underscore (text_of rawTablename +:+ "_"
                                        +:+ JS.join "_" onlyAttributeNames));
         ix_fields := ix_fields index |}
  end.

Definition nameIndexes (indexes : list Index) (rawTablename : RawTablename)
  : Result (list Index) :=
  let* rawTablename :=
    match rawTablename with
    | RawName n => Ok (Some n)
    | RawObject t => Ok t
    | RawNull => Err TypeError      (* .tableName of null *)
    | RawUndefined => Ok None
    end in
  Ok (map (nameIndex rawTablename) indexes).

End NameIndexes.

(** * Concrete configurations

    Generators, collaborators, models and descriptors on which the
    properties below are evaluated. *)

Module Sample.

(** A stand-in for the collaborators: texts are rendered between single
    quotes, null as NULL, associations are looked up by alias among the
    declared ones. *)
Definition externals : Externals := {|
  SqlString_escape v _ _ :=
    match v with
    | VString s => Ok ("'" +:+ s +:+ "'")
    | VNull | VUndefined => Ok "NULL"
    | _ => Err (ExternalError "not rendered")
    end;
  getAssociationForAlias source _ alias :=
    associations source ≫= (.!! default EmptyString alias);
  handleOtherMethod d := Ok d;
  inspect _ := "[object]"
|}.

Definition generator (dialectName : string) (q : ascii) (schemas quoting : bool)
  : QueryGenerator :=
  {| _dialect := {| dialect_name := dialectName;
                    supports_schemas := schemas;
                    identifierQuoteChar := q |};
     options := {| opt_quoteIdentifiers := quoting; opt_timezone := "+00:00" |};
     typeValidation := true |}.

Definition postgres : QueryGenerator := generator "postgres" JS.dquote true true.
Definition postgres_unquoted : QueryGenerator :=
  generator "postgres" JS.dquote true false.
Definition mysql : QueryGenerator := generator "mysql" JS.backtick false true.
Definition sqlite : QueryGenerator := generator "sqlite" JS.backtick false true.

(** A descriptor as [addSchema] builds it for a model User stored in the
    table users of schema app. *)
Definition users_in_schema : TableDescriptor :=
  {| td_schema := Some "app"; td_tableName := "users"; td_delimiter := None;
     td_as := None; td_name := Some "User" |}.

(** A type that rejects every value, renders every value as the text
    rendered, and declares its rendering escaped. *)
Definition strict_type (escaped : bool) : DataType :=
  {| validate := Some (fun _ _ => Err (ValidationError "rejected"));
     stringify := Some (fun _ _ => Ok "rendered");
     escape_is_false := escaped;
     instanceof_JSON := false |}.

Definition strict_field (escaped : bool) : Attribute :=
  {| field := "flag"; type := Some (strict_type escaped) |}.

Definition json_type : DataType :=
  {| validate := None; stringify := None;
     escape_is_false := false; instanceof_JSON := true |}.

(** Post, with a column title and a JSON column meta; User, which has
    many posts. *)
Definition Post : Model :=
  mkModel "Post"
    (Some {[ "title" := {| field := "title"; type := None |};
             "meta" := {| field := "meta"; type := Some json_type |} ]})
    (Some ∅).

Definition posts : Association := mkAssociation Post "posts" None.

Definition User : Model :=
  mkModel "User" (Some ∅) (Some {[ "posts" := posts ]}).

(** A dialect without JSON operations here. *)
Definition mssql : QueryGenerator := generator "mssql" "[" true true.

(** Comment, whose attribute createdAt is stored in column created_at. *)
Definition Comment : Model :=
  mkModel "Comment"
    (Some {[ "createdAt" := {| field := "created_at"; type := None |} ]})
    (Some ∅).

(** Odd, with an attribute named constructor stored in column ctor. *)
Definition Odd : Model :=
  mkModel "Odd"
    (Some {[ "constructor" := {| field := "ctor"; type := None |} ]})
    (Some ∅).

(** The model User in schema app, as handed to [addSchema]. *)
Definition user_source : SchemaSource :=
  {| _schema := Some "app"; src_tableName := Some "users";
     src_name := Some "User"; _schemaDelimiter := None |}.

(** A type that accepts numbers only and has no stringifier. *)
Definition number_type : DataType :=
  {| validate := Some (fun v _ => match v with
                                  | VNumber _ => Ok tt
                                  | _ => Err (ValidationError "not a number")
                                  end);
     stringify := None;
     escape_is_false := false;
     instanceof_JSON := false |}.

Definition number_field : Attribute :=
  {| field := "amount"; type := Some number_type |}.

Definition list_options : EscapeOptions := {| isList := true; operation := None |}.

(** Upper-case letters made lower-case, in the place of
    [Utils.underscore]. *)
Definition lower_char (c : ascii) : ascii :=
  let n := nat_of_ascii c in
  if (65 <=? n)%nat && (n <=? 90)%nat then ascii_of_nat (n + 32) else c.

Fixpoint lower (s : string) : string :=
  match s with
  | EmptyString => EmptyString
  | String a s' => String (lower_char a) (lower s')
  end.

Definition unnamed_index : Index :=
  {| ix_name := None;
     ix_fields := [FieldName "email"; FieldObject (Some "Name") None;
                   FieldObject None (Some "age")] |}.

Definition named_index : Index :=
  {| ix_name := Some "by_email"; ix_fields := [FieldName "email"] |}.

End Sample.

(** The alias of [quoteTable] as the specification words it:
    [descriptor.alias ?? descriptor.tableName ?? name]. *)
Definition spec_alias (d : TableDescriptor) : string :=
  default (td_tableName d) (td_as d).

(** The elements at which the second loop of [quote] stops. *)
Definition is_boundary (item : Item) : bool :=
  match item with
  | IString _ | IModelAttribute _ _ | IMethod _ => true
  | _ => false
  end.

(** Deepest nesting among the elements of an array. *)
Definition depths (items : list Item) : nat :=
  foldr (fun item d => Nat.max (depth item) d) 0%nat items.

(** The texts of the elements of a list, up to the first failure. *)
Fixpoint quote_all (f : Item -> Result string) (items : list Item)
  : Result (list string) :=
  match items with
  | [] => Ok []
  | item :: rest =>
      let* text := f item in
      let* texts := quote_all f rest in
      Ok (text :: texts)
  end.

(** The loop that appends the text of each element, on results. *)
Fixpoint append_results (f : Item -> Result string) (items : list Item)
         (sql : string) : Result string :=
  match items with
  | [] => Ok sql
  | item :: rest => let* text := f item in append_results f rest (sql +:+ text)
  end.

(** Texts put one after the other, nothing in between. *)
Definition concat_all (texts : list string) : string :=
  foldr String.append EmptyString texts.

(** A text made of digits only. *)
Fixpoint digits_only (s : string) : bool :=
  match s with
  | EmptyString => true
  | String a s' => JS.is_digit a && digits_only s'
  end.

(** A key of a JSON path that is an array index: digits, at least one. *)
Definition is_index (k : string) : bool := JS.truthy k && digits_only k.

(** A key as the sqlite path shows it. *)
Definition sqlite_segment (k : string) : string :=
  if is_index k then "[" +:+ k +:+ "]" else "." +:+ k.

(** A key that a dotted path can carry as it is: not empty, free of dots
    and brackets. *)
Definition simple_key (k : string) : bool :=
  JS.truthy k && negb (JS.includes "." k)
  && negb (JS.includes "[" k) && negb (JS.includes "]" k).

(** The text of a string of an array when no model is current: an order
    token past the first position gives a space and the token, any other
    string is quoted. *)
Definition string_text (g : QueryGenerator) (index : nat) (s : string) : string :=
  match (if (0 <? index)%nat
         then JS.indexOf (JS.toUpperCase s) validOrderOptions else None) with
  | Some k => " " +:+ nth k validOrderOptions EmptyString
  | None => quoteIdentifiers g s
  end.

(** The elements the first loop of [quote] may replace. *)
Definition is_rewritable (item : Item) : bool :=
  match item with
  | IString _ | IModel _ | IInclude _ _ => true
  | _ => false
  end.

(** What is left of [escape] once the validation is done or skipped. *)
Definition after_validation `{Externals} (g : QueryGenerator) (value : Value)
           (fld : option Attribute) (opts : EscapeOptions) (ty : DataType)
  : Traced string :=
  match stringify ty with
  | Some str =>
      do* text := tcall (CallStringify value)
                        (str value (stringifyContext g fld opts)) in
      if escape_is_false ty then tret text
      else generic_escape g (VString text)
  | None => generic_escape g value
  end.

(** A text that is empty or starts with a dot: what follows a key in a
    joined path. *)
Definition key_end (rest : string) : Prop :=
  rest = EmptyString \/ exists r, rest = String "." r.

(** What the first loop of [quote] makes of a string when no model is
    current. *)
Definition string_item (index : nat) (s : string) : Item :=
  match (if (0 <? index)%nat
         then JS.indexOf (JS.toUpperCase s) validOrderOptions else None) with
  | Some k => IMethod (Literal (" " +:+ nth k validOrderOptions EmptyString))
  | None => IString s
  end.

Fixpoint string_items (index : nat) (strs : list string) : list Item :=
  match strs with
  | [] => []
  | s :: rest => string_item index s :: string_items (S index) rest
  end.

(** The texts of the strings of an array, from position [index] on. *)
Fixpoint string_texts (g : QueryGenerator) (index : nat) (strs : list string)
  : list string :=
  match strs with
  | [] => []
  | s :: rest => string_text g index s :: string_texts g (S index) rest
  end.

(** * Properties *)

#[local] Arguments String.append !s1 s2 : simpl nomatch.

(** ** Strings *)

Section StringFacts.

Lemma append_assoc (a b c : string) : (a +:+ b) +:+ c = a +:+ b +:+ c.
Proof. induction a as [|x a IH]; simpl; [reflexivity | now rewrite IH]. Qed.

Lemma append_empty_r (a : string) : a +:+ EmptyString = a.
Proof. induction a as [|x a IH]; simpl; [reflexivity | now rewrite IH]. Qed.

Lemma split_nonempty c s : JS.split c s <> [].
Proof.
  destruct s as [|a s]; simpl; [discriminate |].
  destruct (Ascii.eqb a c); [discriminate |].
  destruct (JS.split c s); discriminate.
Qed.

Lemma split_no_separator c s : JS.includes c s = false -> JS.split c s = [s].
Proof.
  induction s as [|a s IH]; simpl; [reflexivity |].
  destruct (Ascii.eqb a c); [discriminate |].
  intros Hs. now rewrite (IH Hs).
Qed.

Lemma split_at_last c head tail :
  JS.includes c tail = false ->
  JS.split c (head +:+ String c tail) = (JS.split c head ++ [tail])%list.
Proof.
  intros Ht. induction head as [|a h IH]; simpl.
  - rewrite Ascii.eqb_refl. now rewrite (split_no_separator _ _ Ht).
  - destruct (Ascii.eqb a c); rewrite IH; [reflexivity |].
    pose proof (split_nonempty c h) as Hne.
    destruct (JS.split c h); [congruence | reflexivity].
Qed.

Lemma head_split_prefix c p rest :
  JS.includes c p = false ->
  head (JS.split c (p +:+ String c rest)) = Some p.
Proof.
  induction p as [|a p IH]; simpl.
  - now rewrite Ascii.eqb_refl.
  - destruct (Ascii.eqb a c); [discriminate |].
    intros Hp. specialize (IH Hp).
    destruct (JS.split c (p +:+ String c rest)); simpl in *; congruence.
Qed.

Lemma join_cons_char sep a w ws :
  JS.join sep (String a w :: ws) = String a (JS.join sep (w :: ws)).
Proof. destruct ws; reflexivity. Qed.

Lemma join_split c s : JS.join (JS.chr c) (JS.split c s) = s.
Proof.
  induction s as [|a s IH]; simpl; [reflexivity |].
  destruct (Ascii.eqb_spec a c) as [-> | Hne].
  - pose proof (split_nonempty c s) as Hn.
    destruct (JS.split c s) as [|w ws]; [congruence |].
    change (JS.join (JS.chr c) (EmptyString :: w :: ws))
      with (String c (JS.join (JS.chr c) (w :: ws))).
    now rewrite IH.
  - pose proof (split_nonempty c s) as Hn.
    destruct (JS.split c s) as [|w ws]; [congruence |].
    rewrite join_cons_char. now rewrite IH.
Qed.

Lemma js_init_snoc {A} (l : list A) x : JS.init (l ++ [x]) = l.
Proof. apply removelast_last. Qed.

Lemma js_last_snoc {A} (l : list A) x : JS.last (l ++ [x]) = Some x.
Proof. unfold JS.last. rewrite map_app. apply last_last. Qed.

Lemma includes_append c a b :
  JS.includes c (a +:+ b) = JS.includes c a || JS.includes c b.
Proof.
  induction a as [|x a IH]; simpl; [reflexivity |].
  destruct (Ascii.eqb x c); [reflexivity | exact IH].
Qed.

(** A string with a separator in it is cut at the last one. *)
Lemma last_separator c s :
  JS.includes c s = true ->
  exists head tail, s = head +:+ String c tail /\ JS.includes c tail = false.
Proof.
  induction s as [|a s IH]; simpl; [discriminate |].
  destruct (JS.includes c s) eqn:Hs.
  - intros _. destruct (IH eq_refl) as (h & t & -> & Ht).
    exists (String a h), t. split; [reflexivity | exact Ht].
  - destruct (Ascii.eqb_spec a c) as [-> | Hne]; [| discriminate].
    intros _. exists EmptyString, s. split; [reflexivity | exact Hs].
Qed.

Lemma ends_with_snoc q s : QuoteHelper.ends_with q (s +:+ JS.chr q) = true.
Proof.
  induction s as [|a s IH]; simpl.
  - apply Ascii.eqb_refl.
  - destruct (s +:+ JS.chr q) eqn:E; [| exact IH].
    destruct s; discriminate.
Qed.

Lemma isIdentifierQuoted_wrap q s :
  QuoteHelper.isIdentifierQuoted q (QuoteHelper.wrap q s) = true.
Proof.
  unfold QuoteHelper.wrap. simpl.
  now rewrite Ascii.eqb_refl, ends_with_snoc.
Qed.

Lemma upper_char_dot a : Ascii.eqb (JS.upper_char a) JS.dot = Ascii.eqb a JS.dot.
Proof.
  destruct a as [[] [] [] [] [] [] [] []]; reflexivity.
Qed.

Lemma includes_dot_toUpperCase s :
  JS.includes JS.dot (JS.toUpperCase s) = JS.includes JS.dot s.
Proof.
  induction s as [|a s IH]; simpl; [reflexivity |].
  now rewrite upper_char_dot, IH.
Qed.

Lemma indexOf_Some_In x l k : JS.indexOf x l = Some k -> In x l.
Proof.
  revert k. induction l as [|y l IH]; simpl; [discriminate |].
  intros k. destruct (String.eqb_spec y x) as [-> | Hne]; [now left |].
  destruct (JS.indexOf x l) eqn:E; [| discriminate].
  intros _. right. eapply IH. reflexivity.
Qed.

Lemma indexOf_nth x l k : JS.indexOf x l = Some k -> nth k l EmptyString = x.
Proof.
  revert k. induction l as [|y l IH]; simpl; [discriminate |].
  intros k. destruct (String.eqb_spec y x) as [-> | Hne].
  - intros [= <-]. reflexivity.
  - destruct (JS.indexOf x l) eqn:E; [| discriminate].
    intros [= <-]. now apply IH.
Qed.

End StringFacts.

(** ** Fuel of the string scanners *)

Section ScannerFuel.

Lemma span_digits_length s d r :
  JS.span_digits s = (d, r) -> String.length s = (String.length d + String.length r)%nat.
Proof.
  revert d r. induction s as [|a s IH]; intros d r; simpl.
  - intros [= <- <-]. reflexivity.
  - destruct (JS.is_digit a).
    + destruct (JS.span_digits s) as [d' r'] eqn:E. intros [= <- <-].
      simpl. now rewrite (IH _ _ eq_refl).
    + intros [= <- <-]. reflexivity.
Qed.

Lemma span_prop_length s p r :
  Lodash.span_prop s = (p, r) ->
  String.length s = (String.length p + String.length r)%nat.
Proof.
  revert p r. induction s as [|a s IH]; intros p r; simpl.
  - intros [= <- <-]. reflexivity.
  - destruct (Ascii.eqb a "." || Ascii.eqb a "[" || Ascii.eqb a "]").
    + intros [= <- <-]. reflexivity.
    + destruct (Lodash.span_prop s) as [p' r'] eqn:E. intros [= <- <-].
      simpl. now rewrite (IH _ _ eq_refl).
Qed.

Lemma match_number_length s key r :
  Lodash.match_number s = Some (key, r) -> (String.length r < String.length s)%nat.
Proof.
  unfold Lodash.match_number.
  set (cut := match s with String "-" r0 => ("-", r0) | _ => (EmptyString, s) end).
  assert (String.length (snd cut) <= String.length s)%nat as Hcut.
  { subst cut. destruct s as [|a s]; simpl; [lia |].
    destruct (Ascii.eqb_spec a "-") as [-> | Hne]; simpl; [lia |].
    destruct a as [[] [] [] [] [] [] [] []]; simpl; try lia. }
  destruct cut as [sign s1]. simpl in Hcut.
  destruct (JS.span_digits s1) as [d1 r1] eqn:E1.
  apply span_digits_length in E1.
  destruct (negb (JS.truthy d1)); [discriminate |].
  destruct r1 as [|c r1]; [discriminate |].
  destruct (Ascii.eqb_spec c "]") as [-> | Hc1].
  { intros [= _ <-]. simpl in E1. lia. }
  destruct (Ascii.eqb_spec c ".") as [-> | Hc2].
  - destruct (JS.span_digits r1) as [d2 r3] eqn:E2.
    apply span_digits_length in E2.
    destruct (negb (JS.truthy d2)); [discriminate |].
    destruct r3 as [|c3 r3]; [discriminate |].
    destruct (Ascii.eqb_spec c3 "]") as [-> | Hc3].
    + intros [= _ <-]. simpl in E1, E2. lia.
    + destruct c3 as [[] [] [] [] [] [] [] []]; try discriminate; congruence.
  - destruct c as [[] [] [] [] [] [] [] []]; try discriminate; congruence.
Qed.

Lemma match_quoted_length q s acc sub r :
  Lodash.match_quoted q s acc = Some (sub, r) ->
  (String.length r < String.length s)%nat.
Proof.
  remember (String.length s) as n eqn:Hn. revert s acc Hn.
  induction n as [n IH] using lt_wf_ind. intros s acc ->.
  destruct s as [|c s]; simpl; [discriminate |].
  destruct (Ascii.eqb c q).
  - destruct s as [|c' s]; [discriminate |].
    destruct (Ascii.eqb_spec c' "]") as [-> | Hc].
    + intros [= _ <-]. simpl. lia.
    + destruct c' as [[] [] [] [] [] [] [] []]; try discriminate; congruence.
  - destruct (Ascii.eqb c JS.backslash).
    + destruct s as [|d s]; [discriminate |].
      destruct (Lodash.line_terminator d); [discriminate |].
      intros Hm.
      pose proof (IH (String.length s) ltac:(simpl; lia) s _ eq_refl Hm).
      simpl. lia.
    + intros Hm.
      pose proof (IH (String.length s) ltac:(simpl; lia) s _ eq_refl Hm).
      simpl. lia.
Qed.

Lemma match_bracket_length s key r :
  Lodash.match_bracket s = Some (key, r) -> (String.length r < String.length s)%nat.
Proof.
  unfold Lodash.match_bracket. destruct s as [|q s]; [discriminate |].
  destruct (Ascii.eqb q JS.dquote || Ascii.eqb q JS.squote).
  - destruct (Lodash.match_quoted q s EmptyString) as [[sub rest]|] eqn:E;
      [| discriminate].
    intros [= _ <-]. apply match_quoted_length in E. simpl. lia.
  - apply match_number_length.
Qed.

(** The keys do not depend on the fuel once it covers the length of the
    string: no key is lost. *)
Lemma scan_keys_fuel n :
  forall m s, (String.length s <= n)%nat -> (String.length s <= m)%nat ->
              Lodash.scan_keys n s = Lodash.scan_keys m s.
Proof.
  induction n as [|n IH]; intros m s Hn Hm.
  - destruct s; [| simpl in Hn; lia]. destruct m; reflexivity.
  - destruct s as [|c r]; [destruct m; reflexivity |].
    destruct m as [|m]; [simpl in Hm; lia |].
    cbn [Lodash.scan_keys].
    destruct (Lodash.span_prop (String c r)) as [p rest] eqn:Ep.
    pose proof (span_prop_length _ _ _ Ep) as Hlen. simpl in Hn, Hm, Hlen.
    destruct (JS.truthy p) eqn:Hp.
    + f_equal. destruct p; [discriminate |]. simpl in Hlen. apply IH; lia.
    + destruct (if Ascii.eqb c "[" then Lodash.match_bracket r else None)
        as [[key rest']|] eqn:Eb.
      * f_equal. destruct (Ascii.eqb c "["); [| discriminate].
        apply match_bracket_length in Eb. apply IH; lia.
      * destruct (Lodash.empty_key_ahead (String c r)); [f_equal |]; apply IH; lia.
Qed.

Lemma bracket_indices_fuel n :
  forall m s, (String.length s <= n)%nat -> (String.length s <= m)%nat ->
              bracket_indices n s = bracket_indices m s.
Proof.
  induction n as [|n IH]; intros m s Hn Hm.
  - destruct s; [| simpl in Hn; lia]. destruct m; reflexivity.
  - destruct s as [|c r]; [destruct m; reflexivity |].
    destruct m as [|m]; [simpl in Hm; lia |].
    cbn [bracket_indices]. simpl in Hn, Hm.
    destruct (Ascii.eqb c "."); [| f_equal; apply IH; lia].
    destruct (JS.span_digits r) as [d rest] eqn:Ed.
    apply span_digits_length in Ed.
    destruct (JS.truthy d && _); [| f_equal; apply IH; lia].
    do 3 f_equal. apply IH; lia.
Qed.

End ScannerFuel.

(** ** Property reads *)

Section PropertyReads.

Context {V : Type}.

Lemma inherited_no_dot key :
  JSObject.inherited key = true -> JS.includes JS.dot key = false.
Proof.
  unfold JSObject.inherited, JSObject.prototype_keys. cbn [existsb].
  rewrite !orb_true_iff.
  intros Hk.
  repeat (destruct Hk as [Hk | Hk];
          [apply String.eqb_eq in Hk; subst key; reflexivity |]).
  discriminate.
Qed.

Lemma dotted_not_inherited key :
  JS.includes JS.dot key = true -> JSObject.inherited key = false.
Proof.
  intros Hk. destruct (JSObject.inherited key) eqn:E; [| reflexivity].
  apply inherited_no_dot in E. congruence.
Qed.

Lemma get_own (o : gmap string V) key v :
  o !! key = Some v -> JSObject.get o key = JSObject.Own v.
Proof. intros Ho. unfold JSObject.get. now rewrite Ho. Qed.

Lemma get_undefined (o : gmap string V) key :
  o !! key = None -> JSObject.inherited key = false ->
  JSObject.get o key = JSObject.Undefined.
Proof. intros Ho Hk. unfold JSObject.get. now rewrite Ho, Hk. Qed.

Lemma get_inherited (o : gmap string V) key :
  o !! key = None -> JSObject.inherited key = true ->
  JSObject.get o key = JSObject.Inherited.
Proof. intros Ho Hk. unfold JSObject.get. now rewrite Ho, Hk. Qed.

Lemma get_defined_own (o : option (gmap string V)) key v :
  o ≫= (.!! key) = Some v -> JSObject.get_defined o key = JSObject.Own v.
Proof.
  destruct o as [m|]; [| discriminate]. cbn. intros Hm.
  now apply get_own.
Qed.

Lemma get_defined_undefined (o : option (gmap string V)) key :
  o ≫= (.!! key) = None -> (is_Some o -> JSObject.inherited key = false) ->
  JSObject.get_defined o key = JSObject.Undefined.
Proof.
  destruct o as [m|]; [| reflexivity]. cbn. intros Hm Hk.
  apply get_undefined; [exact Hm | apply Hk; eauto].
Qed.

End PropertyReads.

(** ** Identifier quoting *)

Section IdentifierProperties.

Variable g : QueryGenerator.

Lemma quoteIdentifier_enabled x :
  opt_quoteIdentifiers (options g) = true ->
  isIdentifierQuoted g (quoteIdentifier g x false) = true.
Proof.
  intros Hon. unfold isIdentifierQuoted, quoteIdentifier, QuoteHelper.quoteIdentifier.
  rewrite Hon.
  destruct (QuoteHelper.isIdentifierQuoted _ x) eqn:Hq; [exact Hq |].
  apply isIdentifierQuoted_wrap.
Qed.

Lemma quoteIdentifier_forced x :
  isIdentifierQuoted g (quoteIdentifier g x true) = true.
Proof. apply isIdentifierQuoted_wrap. Qed.

Lemma quoteIdentifiers_at_last_dot head tail :
  JS.includes JS.dot tail = false ->
  quoteIdentifiers g (head +:+ "." +:+ tail)
  = quoteIdentifier g head false +:+ "." +:+ quoteIdentifier g tail false.
Proof.
  intros Ht. unfold quoteIdentifiers.
  change (head +:+ "." +:+ tail) with (head +:+ String JS.dot tail).
  assert (JS.includes JS.dot (head +:+ String JS.dot tail) = true) as ->.
  { rewrite includes_append. apply orb_true_iff. right. reflexivity. }
  rewrite (split_at_last _ _ _ Ht), js_init_snoc, js_last_snoc.
  change "." with (JS.chr JS.dot) at 1. now rewrite join_split.
Qed.

End IdentifierProperties.

(** C3, as amended.  Where identifier quoting is enabled, or when [force]
    is set, the result of [quoteIdentifier] is recognised as quoted by
    [isIdentifierQuoted], for every string; with quoting disabled and
    [force] unset an unquoted name is handed back as it is. *)
Theorem isIdentifierQuoted_quoteIdentifier (g : QueryGenerator) (x : string)
        (force : bool) :
  (force = true \/ opt_quoteIdentifiers (options g) = true ->
   isIdentifierQuoted g (quoteIdentifier g x force) = true)
  /\ (opt_quoteIdentifiers (options g) = false ->
      isIdentifierQuoted g x = false ->
      quoteIdentifier g x false = x).
Proof.
  split.
  - intros [-> | Hon]; [apply quoteIdentifier_forced |].
    destruct force; [apply quoteIdentifier_forced | now apply quoteIdentifier_enabled].
  - intros Hoff Hx. unfold quoteIdentifier, QuoteHelper.quoteIdentifier.
    unfold isIdentifierQuoted in Hx. now rewrite Hx, Hoff.
Qed.

Lemma isIdentifierQuoted_quoteIdentifier_witness :
  isIdentifierQuoted Sample.postgres
    (quoteIdentifier Sample.postgres "title" false) = true
  /\ quoteIdentifier Sample.postgres_unquoted "title" false = "title".
Proof.
  split.
  - apply (proj1 (isIdentifierQuoted_quoteIdentifier Sample.postgres "title" false)).
    right. reflexivity.
  - apply (proj2 (isIdentifierQuoted_quoteIdentifier
                    Sample.postgres_unquoted "title" false)); reflexivity.
Defined.

(** C3, as stated, fails: with identifier quoting disabled the name a is
    handed back bare, and a bare name is not recognised as quoted. *)
Lemma quoteIdentifier_disabled_not_quoted :
  ~ (forall (g : QueryGenerator) (x : string),
        x <> EmptyString ->
        isIdentifierQuoted g (quoteIdentifier g x false) = true).
Proof.
  intros Hall.
  specialize (Hall Sample.postgres_unquoted "a" ltac:(discriminate)).
  vm_compute in Hall. discriminate.
Qed.

(** C6.  A string with a dot in it is cut at its last dot only: what
    precedes that dot is quoted as one identifier, dots included, what
    follows it is quoted on its own, and the two are joined by a dot.
    With double quotes as the quote character, a.b.c gives the quoted
    a.b, a dot, and the quoted c. *)
Theorem quoteIdentifiers_splits_at_last_dot (g : QueryGenerator) :
  (forall s, JS.includes JS.dot s = true ->
     exists head tail,
       s = head +:+ "." +:+ tail /\ JS.includes JS.dot tail = false
       /\ quoteIdentifiers g s
          = quoteIdentifier g head false +:+ "." +:+ quoteIdentifier g tail false)
  /\ (identifierQuoteChar (_dialect g) = JS.dquote ->
      opt_quoteIdentifiers (options g) = true ->
      quoteIdentifiers g "a.b.c"
      = JS.dq +:+ "a.b" +:+ JS.dq +:+ "." +:+ JS.dq +:+ "c" +:+ JS.dq).
Proof.
  split.
  - intros s Hs. destruct (last_separator _ _ Hs) as (head & tail & -> & Ht).
    exists head, tail. split; [reflexivity | split; [exact Ht |]].
    now apply quoteIdentifiers_at_last_dot.
  - intros Hq Hon.
    change "a.b.c" with ("a.b" +:+ "." +:+ "c").
    rewrite (quoteIdentifiers_at_last_dot g "a.b" "c" eq_refl).
    unfold quoteIdentifier. rewrite Hq, Hon. reflexivity.
Qed.

Lemma quoteIdentifiers_splits_at_last_dot_witness :
  (exists head tail,
      "public.users.id" = head +:+ "." +:+ tail /\ JS.includes JS.dot tail = false
      /\ quoteIdentifiers Sample.mysql "public.users.id"
         = quoteIdentifier Sample.mysql head false +:+ "."
             +:+ quoteIdentifier Sample.mysql tail false)
  /\ quoteIdentifiers Sample.postgres "a.b.c"
     = JS.dq +:+ "a.b" +:+ JS.dq +:+ "." +:+ JS.dq +:+ "c" +:+ JS.dq.
Proof.
  split.
  - apply (proj1 (quoteIdentifiers_splits_at_last_dot Sample.mysql)). reflexivity.
  - apply (proj2 (quoteIdentifiers_splits_at_last_dot Sample.postgres)); reflexivity.
Defined.

(** ** Table references *)

(** C4, as amended.  With [alias === true] the alias of a descriptor is
    its [as], failing that its [name]; the alias of a bare name is the
    name itself.  A descriptor with a schema gives the quoted schema, a
    dot and the quoted table name where the dialect supports schemas, and
    elsewhere the schema, the delimiter and the table name quoted as one
    identifier; a descriptor without a schema gives the quoted table
    name.  For every descriptor and every bare name, a present alias is
    appended, quoted, after AS. *)
Theorem quoteTable_schema_and_alias (g : QueryGenerator) (d : TableDescriptor) :
  exists table,
    quoteTable g (TableObject d) AliasAbsent = Ok table
    /\ (forall sch, td_schema d = Some sch -> JS.truthy sch = true ->
          table
          = if supports_schemas (_dialect g)
            then quoteIdentifier g sch false +:+ "."
                   +:+ quoteIdentifier g (td_tableName d) false
            else quoteIdentifier g
                   (sch +:+ JS.or_else (td_delimiter d) "." +:+ td_tableName d)
                   false)
    /\ (JS.truthy_opt (td_schema d) = false ->
        table = quoteIdentifier g (td_tableName d) false)
    /\ (forall a, td_as d = Some a -> JS.truthy a = true ->
          quoteTable g (TableObject d) AliasTrue
          = Ok (table +:+ " AS " +:+ quoteIdentifier g a false))
    /\ (forall n, JS.truthy_opt (td_as d) = false ->
          td_name d = Some n -> JS.truthy n = true ->
          quoteTable g (TableObject d) AliasTrue
          = Ok (table +:+ " AS " +:+ quoteIdentifier g n false))
    /\ (forall a, JS.truthy a = true ->
          quoteTable g (TableObject d) (AliasString a)
          = Ok (table +:+ " AS " +:+ quoteIdentifier g a false))
    /\ (forall n, JS.truthy n = true ->
          quoteTable g (TableName n) AliasTrue
          = Ok (quoteIdentifier g n false +:+ " AS " +:+ quoteIdentifier g n false))
    /\ (forall n a, JS.truthy a = true ->
          quoteTable g (TableName n) (AliasString a)
          = Ok (quoteIdentifier g n false +:+ " AS " +:+ quoteIdentifier g a false)).
Proof.
  set (table :=
         if supports_schemas (_dialect g)
         then (if JS.truthy_opt (td_schema d)
               then quoteIdentifier g (default EmptyString (td_schema d)) false +:+ "."
               else EmptyString)
                +:+ quoteIdentifier g (td_tableName d) false
         else quoteIdentifier g
                ((if JS.truthy_opt (td_schema d)
                  then default EmptyString (td_schema d)
                         +:+ JS.or_else (td_delimiter d) "."
                  else EmptyString) +:+ td_tableName d) false).
  exists table. repeat split.
  - intros sch Hs Ht. subst table. rewrite Hs. simpl JS.truthy_opt.
    rewrite Ht. simpl default.
    destruct (supports_schemas (_dialect g)); now rewrite append_assoc.
  - intros Hs. subst table. rewrite Hs.
    destruct (supports_schemas (_dialect g)); reflexivity.
  - intros a Ha Hta. unfold quoteTable, resolve_alias.
    rewrite Ha. simpl JS.truthy_opt. rewrite Hta. simpl default.
    rewrite Hta. reflexivity.
  - intros n Has Hn Htn. unfold quoteTable, resolve_alias.
    rewrite Has, Hn. simpl JS.truthy_opt. rewrite Htn. simpl default.
    rewrite Htn. reflexivity.
  - intros a Hta. unfold quoteTable, resolve_alias. rewrite Hta. reflexivity.
  - intros n Htn. unfold quoteTable, resolve_alias. rewrite Htn. reflexivity.
  - intros n a Hta. unfold quoteTable, resolve_alias. rewrite Hta. reflexivity.
Qed.

Lemma quoteTable_schema_and_alias_witness :
  quoteTable Sample.mysql (TableObject Sample.users_in_schema) AliasTrue
  = Ok ("`app.users` AS `User`")
  /\ quoteTable Sample.postgres
       (TableObject {| td_schema := None; td_tableName := "users";
                       td_delimiter := None; td_as := Some "u";
                       td_name := Some "User" |}) AliasTrue
     = Ok (JS.dq +:+ "users" +:+ JS.dq +:+ " AS " +:+ JS.dq +:+ "u" +:+ JS.dq).
Proof.
  split.
  - destruct (quoteTable_schema_and_alias Sample.mysql Sample.users_in_schema)
      as (table & _ & Hschema & _ & _ & Hname & _).
    rewrite (Hname "User" eq_refl eq_refl eq_refl).
    now rewrite (Hschema "app" eq_refl eq_refl).
  - destruct (quoteTable_schema_and_alias Sample.postgres
                {| td_schema := None; td_tableName := "users";
                   td_delimiter := None; td_as := Some "u";
                   td_name := Some "User" |})
      as (table & _ & _ & Hbare & Has & _).
    rewrite (Has "u" eq_refl eq_refl).
    now rewrite (Hbare eq_refl).
Defined.

(** C4, as stated, fails: the descriptor of table users of model User has
    no [as], and [alias === true] names it after the model, User, not
    after the table. *)
Lemma quoteTable_alias_is_not_tableName :
  quoteTable Sample.postgres (TableObject Sample.users_in_schema) AliasTrue
  = Ok (JS.dq +:+ "app" +:+ JS.dq +:+ "." +:+ JS.dq +:+ "users" +:+ JS.dq
          +:+ " AS " +:+ JS.dq +:+ "User" +:+ JS.dq)
  /\ quoteTable Sample.postgres (TableObject Sample.users_in_schema) AliasTrue
     <> Ok (quoteIdentifier Sample.postgres "app" false +:+ "."
              +:+ quoteIdentifier Sample.postgres "users" false
              +:+ " AS "
              +:+ quoteIdentifier Sample.postgres
                    (spec_alias Sample.users_in_schema) false).
Proof. split; [reflexivity | vm_compute; discriminate]. Qed.

(** ** Escaping *)

Section EscapeProperties.

Context `{Externals}.
Variable g : QueryGenerator.

(** A value that is present and falsy: [false], [0], the empty text. *)
Lemma falsy_present value :
  value_truthy value = false -> value <> VNull -> value <> VUndefined ->
  value = VBool false \/ value = VNumber 0 \/ value = VString EmptyString.
Proof.
  destruct value as [| |b|n|s|l|m|o]; simpl; try discriminate; try congruence.
  - destruct b; [discriminate | auto].
  - destruct (Z.eqb_spec n 0) as [-> | ?]; [auto | discriminate].
  - destruct s; [auto | discriminate].
Qed.

Lemma tbind_tret_l {A B} (a : A) (f : A -> Traced B) : tbind (tret a) f = f a.
Proof. unfold tbind, tret. destruct (f a). reflexivity. Qed.

Lemma escape_run_falsy value fld ty opts :
  fld ≫= type = Some ty ->
  value_truthy value = false -> value <> VNull -> value <> VUndefined ->
  escape_run g value fld opts
  = match stringify ty with
    | Some str =>
        do* text := tcall (CallStringify value)
                          (str value (stringifyContext g fld (default no_options opts))) in
        if escape_is_false ty then tret text
        else generic_escape g (VString text)
    | None => generic_escape g value
    end.
Proof.
  intros Hty Hf Hn Hu.
  destruct (falsy_present value Hf Hn Hu) as [-> | [-> | ->]];
    unfold escape_run; rewrite Hty; simpl value_truthy;
    rewrite andb_false_r;
    destruct (validate ty); destruct (stringify ty);
    rewrite tbind_tret_l; reflexivity.
Qed.

End EscapeProperties.

(** C9, as amended.  For a value that is present and falsy, [escape]
    makes no call to the validator of the field's type, whatever the
    type-validation setting.  The value goes to the type's stringifier
    when there is one; the generic escaper then receives the stringified
    text, unless the type sets [escape] to [false], in which case that
    text is the result; without a stringifier the generic escaper
    receives the value itself. *)
Theorem escape_skips_validation_of_falsy `{Externals} (g : QueryGenerator)
        (value : Value) (fld : option Attribute) (ty : DataType)
        (opts : option EscapeOptions) :
  fld ≫= type = Some ty ->
  value_truthy value = false -> value <> VNull -> value <> VUndefined ->
  (forall v, ~ In (CallValidate v) (escape_calls g value fld opts))
  /\ (stringify ty = None ->
      escape_calls g value fld opts = [CallSqlEscape value]
      /\ escape g value fld opts
         = SqlString_escape value (opt_timezone (options g)) (dialect g))
  /\ (forall str text,
        stringify ty = Some str ->
        str value (stringifyContext g fld (default no_options opts)) = Ok text ->
        if escape_is_false ty
        then escape_calls g value fld opts = [CallStringify value]
             /\ escape g value fld opts = Ok text
        else escape_calls g value fld opts
             = [CallStringify value; CallSqlEscape (VString text)]
             /\ escape g value fld opts
                = SqlString_escape (VString text)
                    (opt_timezone (options g)) (dialect g)).
Proof.
  intros Hty Hf Hn Hu.
  pose proof (escape_run_falsy g value fld ty opts Hty Hf Hn Hu) as Hrun.
  unfold escape_calls, escape. rewrite Hrun. clear Hrun.
  split; [| split].
  - intros v. destruct (stringify ty) as [str|]; simpl.
    + destruct (str value _) as [text|e]; simpl;
        [destruct (escape_is_false ty); simpl |]; intuition discriminate.
    + intuition discriminate.
  - intros ->. split; reflexivity.
  - intros str text -> Hstr. unfold tcall, tbind. rewrite Hstr.
    destruct (escape_is_false ty); split; reflexivity.
Qed.

Lemma escape_skips_validation_of_falsy_witness :
  (forall v, ~ In (CallValidate v)
               (escape_calls (H := Sample.externals) Sample.postgres (VNumber 0)
                             (Some (Sample.strict_field false)) None))
  /\ escape (H := Sample.externals) Sample.postgres (VNumber 0)
            (Some (Sample.strict_field false)) None = Ok "'rendered'".
Proof.
  pose proof (escape_skips_validation_of_falsy (H := Sample.externals)
                Sample.postgres (VNumber 0) (Some (Sample.strict_field false))
                (Sample.strict_type false) None eq_refl eq_refl
                ltac:(discriminate) ltac:(discriminate)) as (Hv & _ & Hs).
  split; [exact Hv |].
  exact (proj2 (Hs _ "rendered" eq_refl eq_refl)).
Defined.

(** C9, as stated, fails: a type that sets [escape] to [false] has the
    falsy value [0] stringified and the text returned; the generic
    escaper is not called. *)
Lemma escape_false_type_skips_generic_escaper :
  escape_calls (H := Sample.externals) Sample.postgres (VNumber 0)
               (Some (Sample.strict_field true)) None
  = [CallStringify (VNumber 0)]
  /\ ~ (exists v, In (CallSqlEscape v)
                   (escape_calls (H := Sample.externals) Sample.postgres
                                 (VNumber 0) (Some (Sample.strict_field true)) None)).
Proof.
  split; [reflexivity |].
  intros [v Hin]. vm_compute in Hin. destruct Hin as [Hc | []]. discriminate.
Qed.

(** ** JSON paths *)

Section JsonPathProperties.

Context `{Externals}.
Variable g : QueryGenerator.

Lemma escape_text s :
  escape g (VString s) None None
  = SqlString_escape (VString s) (opt_timezone (options g)) (dialect g).
Proof. reflexivity. Qed.

Lemma jsonPath_mysql column path :
  dialect g = "mysql" ->
  jsonPathExtractionQuery g column path
  = Ok ("(" +:+ quotedColumn g column +:+ "->>'"
          +:+ JS.join "." ("$" :: map (fun p => Utils.addTicks p JS.dquote) (toPath path))
          +:+ "')").
Proof. intros Hd. unfold jsonPathExtractionQuery. now rewrite Hd. Qed.

Lemma jsonPath_sqlite column path :
  dialect g = "sqlite" ->
  jsonPathExtractionQuery g column path
  = let joined := JS.join "." ("$" :: toPath path) in
    let* pathStr :=
      SqlString_escape (VString (bracket_indices (String.length joined) joined))
                       (opt_timezone (options g)) "sqlite" in
    Ok ("json_extract(" +:+ quotedColumn g column +:+ ", " +:+ pathStr +:+ ")").
Proof.
  intros Hd. unfold jsonPathExtractionQuery. rewrite !escape_text, Hd.
  reflexivity.
Qed.

Lemma jsonPath_postgres column path :
  dialect g = "postgres" ->
  jsonPathExtractionQuery g column path
  = let* pathStr :=
      SqlString_escape (VString ("{" +:+ JS.join "," (toPath path) +:+ "}"))
                       (opt_timezone (options g)) "postgres" in
    Ok ("(" +:+ quotedColumn g column +:+ "#>>" +:+ pathStr +:+ ")").
Proof.
  intros Hd. unfold jsonPathExtractionQuery. rewrite !escape_text, Hd.
  reflexivity.
Qed.

End JsonPathProperties.

(** C2, as amended.  For a column expression and the path a.0.b the
    result is, under mysql, the column, the arrow and the path with each
    segment between double quotes, all between parentheses; under sqlite,
    json_extract of the column and the literal the escaper makes of
    $.a[0].b, the numeric segment being written between brackets; under
    postgres, the column, the operator and the literal the escaper makes of
    {a,0,b}, between parentheses.  In all three the column is the
    expression itself when it is already quoted and the expression quoted
    as an identifier when it is not. *)
Theorem jsonPathExtractionQuery_a_0_b `{Externals} (g : QueryGenerator)
        (column : string) :
  let col := if isIdentifierQuoted g column then column
             else quoteIdentifier g column false in
  let tz := opt_timezone (options g) in
  (dialect g = "mysql" ->
   jsonPathExtractionQuery g column (PathString "a.0.b")
   = Ok ("(" +:+ col +:+ "->>'$."
           +:+ JS.dq +:+ "a" +:+ JS.dq +:+ "."
           +:+ JS.dq +:+ "0" +:+ JS.dq +:+ "."
           +:+ JS.dq +:+ "b" +:+ JS.dq +:+ "')"))
  /\ (dialect g = "sqlite" ->
      jsonPathExtractionQuery g column (PathString "a.0.b")
      = let* literal := SqlString_escape (VString "$.a[0].b") tz "sqlite" in
        Ok ("json_extract(" +:+ col +:+ ", " +:+ literal +:+ ")"))
  /\ (dialect g = "postgres" ->
      jsonPathExtractionQuery g column (PathString "a.0.b")
      = let* literal := SqlString_escape (VString "{a,0,b}") tz "postgres" in
        Ok ("(" +:+ col +:+ "#>>" +:+ literal +:+ ")")).
Proof.
  intros col tz. repeat split; intros Hd.
  - rewrite (jsonPath_mysql g column _ Hd). reflexivity.
  - rewrite (jsonPath_sqlite g column _ Hd). reflexivity.
  - rewrite (jsonPath_postgres g column _ Hd). reflexivity.
Qed.

Lemma jsonPathExtractionQuery_a_0_b_witness :
  jsonPathExtractionQuery (H := Sample.externals) Sample.mysql "data"
                          (PathString "a.0.b")
  = Ok ("(`data`->>'$."
          +:+ JS.dq +:+ "a" +:+ JS.dq +:+ "."
          +:+ JS.dq +:+ "0" +:+ JS.dq +:+ "."
          +:+ JS.dq +:+ "b" +:+ JS.dq +:+ "')")
  /\ jsonPathExtractionQuery (H := Sample.externals) Sample.sqlite "`data`"
                             (PathString "a.0.b")
     = Ok "json_extract(`data`, '$.a[0].b')"
  /\ jsonPathExtractionQuery (H := Sample.externals) Sample.postgres "data"
                             (PathString "a.0.b")
     = Ok ("(" +:+ JS.dq +:+ "data" +:+ JS.dq +:+ "#>>'{a,0,b}')").
Proof.
  split; [| split].
  - exact (proj1 (jsonPathExtractionQuery_a_0_b (H := Sample.externals)
                    Sample.mysql "data") eq_refl).
  - exact (proj1 (proj2 (jsonPathExtractionQuery_a_0_b (H := Sample.externals)
                           Sample.sqlite "`data`")) eq_refl).
  - exact (proj2 (proj2 (jsonPathExtractionQuery_a_0_b (H := Sample.externals)
                           Sample.postgres "data")) eq_refl).
Defined.

(** C2, as stated, fails: under mysql with identifier quoting on, the
    unquoted column data comes out between backticks, not bare. *)
Lemma jsonPathExtractionQuery_quotes_column :
  jsonPathExtractionQuery (H := Sample.externals) Sample.mysql "data"
                          (PathString "a.0.b")
  <> Ok ("(data->>'$."
           +:+ JS.dq +:+ "a" +:+ JS.dq +:+ "."
           +:+ JS.dq +:+ "0" +:+ JS.dq +:+ "."
           +:+ JS.dq +:+ "b" +:+ JS.dq +:+ "')").
Proof. vm_compute. discriminate. Qed.

(** ** The recursion of quote *)

Section QuoteRecursion.

Context `{Externals}.
Variable g : QueryGenerator.

Lemma depth_array items : depth (IArray items) = S (depths items).
Proof. reflexivity. Qed.

Lemma depths_cons item items :
  depths (item :: items) = Nat.max (depth item) (depths items).
Proof. reflexivity. Qed.

Lemma depths_In item items : In item items -> (depth item <= depths items)%nat.
Proof.
  induction items as [|x items IH]; [contradiction |].
  intros [-> | Hin]; rewrite depths_cons; [lia |].
  specialize (IH Hin). lia.
Qed.

Lemma depths_drop i items : (depths (drop i items) <= depths items)%nat.
Proof.
  revert i. induction items as [|x items IH]; intros [|i]; simpl; try lia.
  specialize (IH i). lia.
Qed.

Lemma rewrite_dotted_depth m s item :
  rewrite_dotted g m s = Ok item -> depth item = 0%nat.
Proof.
  unfold rewrite_dotted.
  destruct (rawAttributes m) as [attributes|]; [| now intros [= <-]].
  destruct (JS.includes JS.dot s); [| now intros [= <-]].
  destruct (JSObject.get attributes _) as [attr| |];
    [| now intros [= <-] | discriminate].
  destruct (from_option instanceof_JSON false (type attr)); [| now intros [= <-]].
  destruct (jsonPathExtractionQuery _ _ _); simpl; [| discriminate].
  now intros [= <-].
Qed.

Lemma rewrite_string_depth previousModel index s item :
  rewrite_string g previousModel index s = Ok item -> depth item = 0%nat.
Proof.
  unfold rewrite_string.
  destruct (if (0 <? index)%nat then _ else _); [now intros [= <-] |].
  destruct previousModel as [m|]; [| now intros [= <-]].
  destruct (JSObject.get_defined (associations m) s);
    [now intros [= <-] | now intros [= <-] |].
  destruct (JSObject.get_defined (rawAttributes m) s) as [attr| |];
    [| now intros [= <-] | apply rewrite_dotted_depth].
  destruct (negb _); [now intros [= <-] | apply rewrite_dotted_depth].
Qed.

Lemma resolve_model_depth m pa item item' :
  resolve_model m pa item = Ok item' -> (depth item' <= depth item)%nat.
Proof.
  unfold resolve_model.
  destruct item; try (intros [= <-]; lia);
    match goal with
    | |- context [if ?b then _ else _] => destruct b
    end;
    repeat match goal with
      | |- context [getAssociationForAlias ?a ?b ?c] =>
          destruct (getAssociationForAlias a b c)
      end;
    try discriminate; intros [= <-]; simpl; lia.
Qed.

Lemma rewrite_item_depth parent index previous item item' :
  rewrite_item g parent index previous item = Ok item' ->
  (depth item' <= depth item)%nat.
Proof.
  unfold rewrite_item. destruct (previous_of parent previous) as [pm pa].
  destruct (match pm with Some m => _ | None => _ end) as [item1|e] eqn:E1;
    simpl; [| discriminate].
  assert (depth item1 <= depth item)%nat as Hle.
  { destruct pm as [m|]; [now apply resolve_model_depth in E1 |].
    injection E1 as <-. lia. }
  destruct item1; try (intros [= <-]; exact Hle).
  intros Hs. apply rewrite_string_depth in Hs. lia.
Qed.

Lemma rewrite_from_depths parent index previous items items' :
  rewrite_from g parent index previous items = Ok items' ->
  (depths items' <= depths items)%nat.
Proof.
  revert index previous items'.
  induction items as [|item items IH]; intros index previous items';
    cbn [rewrite_from].
  - intros [= <-]. lia.
  - destruct (rewrite_item g parent index previous item) as [item'|] eqn:Ei;
      simpl; [| discriminate].
    destruct (rewrite_from g parent (S index) (Some item') items) as [rest'|] eqn:Er;
      simpl; [| discriminate].
    intros [= <-]. rewrite !depths_cons.
    apply rewrite_item_depth in Ei. apply IH in Er. lia.
Qed.

Lemma append_each_ext (f f' : Item -> option (Result string)) items sql :
  (forall item, In item items -> f item = f' item) ->
  append_each f items sql = append_each f' items sql.
Proof.
  revert sql. induction items as [|item items IH]; intros sql Hf; simpl;
    [reflexivity |].
  rewrite <- (Hf item (or_introl eq_refl)).
  destruct (f item) as [[text|e]|]; try reflexivity.
  apply IH. intros x Hx. apply Hf. now right.
Qed.

Lemma append_each_Some (f : Item -> option (Result string)) items sql :
  (forall item, In item items -> f item <> None) ->
  append_each f items sql <> None.
Proof.
  revert sql. induction items as [|item items IH]; intros sql Hf; simpl;
    [discriminate |].
  pose proof (Hf item (or_introl eq_refl)) as Hi.
  destruct (f item) as [[text|e]|]; [| discriminate | congruence].
  apply IH. intros x Hx. apply Hf. now right.
Qed.

(** Any fuel above the depth of the item gives the same answer, and an
    answer it is. *)
Lemma quote_fuel_stable n :
  forall m collection parent connector,
    (depth collection < n)%nat -> (depth collection < m)%nat ->
    quote_fuel g n collection parent connector
    = quote_fuel g m collection parent connector
    /\ quote_fuel g n collection parent connector <> None.
Proof.
  induction n as [|n IH]; intros m collection parent connector Hn Hm; [lia |].
  destruct m as [|m]; [lia |].
  destruct collection as [s|items| | | | | | | |]; simpl;
    try (split; [reflexivity | discriminate]).
  rewrite depth_array in Hn, Hm.
  destruct (rewrite g parent items) as [items'|e] eqn:Er;
    [| split; [reflexivity | discriminate]].
  apply rewrite_from_depths in Er.
  destruct (scan 0 items' []) as [[i names]|e];
    [| split; [reflexivity | discriminate]].
  assert (forall item, In item (JS.slice i items') ->
                       (depth item <= depths items)%nat) as Hd.
  { intros item Hin. apply depths_In in Hin.
    pose proof (depths_drop i items'). unfold JS.slice in Hin. lia. }
  split.
  - apply append_each_ext. intros item Hin. specialize (Hd item Hin).
    apply IH; lia.
  - apply append_each_Some. intros item Hin. specialize (Hd item Hin).
    apply (IH m); lia.
Qed.

(** [quote] is [quote_fuel] with any fuel above the depth of the item. *)
Lemma quote_fuel_enough n collection parent connector :
  (depth collection < n)%nat ->
  quote_fuel g n collection parent connector
  = Some (quote g collection parent connector).
Proof.
  intros Hn. unfold quote.
  destruct (quote_fuel_stable n (S (depth collection)) collection parent connector
              Hn ltac:(lia)) as [Heq Hsome].
  rewrite <- Heq. destruct (quote_fuel g n collection parent connector);
    [reflexivity | congruence].
Qed.

Lemma append_each_results (fo : Item -> option (Result string))
      (f : Item -> Result string) items sql :
  (forall item, In item items -> fo item = Some (f item)) ->
  append_each fo items sql = Some (append_results f items sql).
Proof.
  revert sql. induction items as [|item items IH]; intros sql Hf; simpl;
    [reflexivity |].
  rewrite (Hf item (or_introl eq_refl)).
  destruct (f item) as [text|e]; simpl; [| reflexivity].
  apply IH. intros x Hx. apply Hf. now right.
Qed.

Lemma append_results_all f items sql :
  append_results f items sql
  = let* texts := quote_all f items in Ok (sql +:+ concat_all texts).
Proof.
  revert sql. induction items as [|item items IH]; intros sql; simpl.
  - now rewrite append_empty_r.
  - destruct (f item) as [text|e]; simpl; [| reflexivity].
    rewrite IH. destruct (quote_all f items) as [texts|e]; simpl; [| reflexivity].
    now rewrite append_assoc.
Qed.

Lemma quote_fuel_array n items parent connector :
  quote_fuel g (S n) (IArray items) parent connector
  = let c := JS.or_else connector "." in
    match rewrite g parent items with
    | Err e => Some (Err e)
    | Ok items' =>
        match scan 0 items' [] with
        | Err e => Some (Err e)
        | Ok (i, tableNames) =>
            append_each (fun item => quote_fuel g n item parent (Some c))
                        (JS.slice i items')
                        (prefix g parent c items' i tableNames)
        end
    end.
Proof. reflexivity. Qed.

(** [quote] on an array, one level unfolded. *)
Lemma quote_array items parent connector :
  quote g (IArray items) parent connector
  = let c := JS.or_else connector "." in
    let* items' := rewrite g parent items in
    let* found := scan 0 items' [] in
    append_results (fun item => quote g item parent (Some c))
                   (JS.slice (fst found) items')
                   (prefix g parent c items' (fst found) (snd found)).
Proof.
  unfold quote at 1. rewrite depth_array, quote_fuel_array. cbv zeta.
  destruct (rewrite g parent items) as [items'|e] eqn:Er; [| reflexivity].
  apply rewrite_from_depths in Er. cbn [bind].
  destruct (scan 0 items' []) as [[i names]|e]; [| reflexivity].
  cbn [bind fst snd].
  rewrite (append_each_results _
             (fun item => quote g item parent (Some (JS.or_else connector ".")))).
  - reflexivity.
  - intros item Hin. apply quote_fuel_enough.
    apply depths_In in Hin. pose proof (depths_drop i items').
    unfold JS.slice in Hin. lia.
Qed.

End QuoteRecursion.

(** ** The rewriting of strings *)

Section RewriteProperties.

Context `{Externals}.
Variable g : QueryGenerator.

Lemma rewrite_item_string parent index previous s :
  rewrite_item g parent index previous (IString s)
  = rewrite_string g (fst (previous_of parent previous)) index s.
Proof.
  unfold rewrite_item. destruct (previous_of parent previous) as [[m|] pa];
    reflexivity.
Qed.

Lemma In_indexOf x l : In x l -> exists k, JS.indexOf x l = Some k.
Proof.
  induction l as [|y l IH]; [contradiction |].
  intros Hin. simpl. destruct (String.eqb_spec y x) as [-> | Hne]; [eauto |].
  destruct Hin as [-> | Hin]; [congruence |].
  destruct (IH Hin) as [k ->]. eauto.
Qed.

Lemma order_options_no_dot token :
  In token validOrderOptions -> JS.includes JS.dot token = false.
Proof.
  unfold validOrderOptions.
  intros Hin. repeat (destruct Hin as [<- | Hin]; [reflexivity |]). contradiction.
Qed.

(** A string with a dot in it is no order token. *)
Lemma dotted_not_order s index :
  JS.includes JS.dot s = true ->
  (if (0 <? index)%nat
   then JS.indexOf (JS.toUpperCase s) validOrderOptions else None) = None.
Proof.
  intros Hs. destruct (0 <? index)%nat; [| reflexivity].
  destruct (JS.indexOf _ _) as [k|] eqn:E; [| reflexivity].
  apply indexOf_Some_In, order_options_no_dot in E.
  rewrite includes_dot_toUpperCase in E. congruence.
Qed.

Lemma rewrite_string_order previousModel index s token :
  (0 < index)%nat -> In token validOrderOptions -> JS.toUpperCase s = token ->
  rewrite_string g previousModel index s
  = Ok (IMethod (Literal (" " +:+ token))).
Proof.
  intros Hi Hin Hup. unfold rewrite_string.
  destruct (Nat.ltb_spec 0 index) as [_ | ?]; [| lia].
  rewrite Hup. destruct (In_indexOf _ _ Hin) as [k Hk].
  rewrite Hk, (indexOf_nth _ _ _ Hk). reflexivity.
Qed.

(** A dotted string that is neither the name of an association nor the
    name of an attribute with another column goes to the last case. *)
Lemma rewrite_string_dotted m index s :
  JS.includes JS.dot s = true ->
  associations m ≫= (.!! s) = None ->
  (forall attr, rawAttributes m ≫= (.!! s) = Some attr -> field attr = s) ->
  rewrite_string g (Some m) index s = rewrite_dotted g m s.
Proof.
  intros Hs Ha Hr. unfold rewrite_string.
  pose proof (dotted_not_inherited s Hs) as Hni.
  rewrite (dotted_not_order _ _ Hs).
  rewrite (get_defined_undefined _ _ Ha (fun _ => Hni)).
  destruct (rawAttributes m ≫= (.!! s)) as [attr|] eqn:E.
  - rewrite (get_defined_own _ _ _ E).
    rewrite (Hr attr eq_refl), String.eqb_refl. reflexivity.
  - now rewrite (get_defined_undefined _ _ E (fun _ => Hni)).
Qed.

Lemma rewrite_dotted_unknown_prefix m attributes p rest :
  rawAttributes m = Some attributes ->
  JS.includes JS.dot p = false ->
  rewrite_dotted g m (p +:+ "." +:+ rest)
  = match JSObject.get attributes p with
    | JSObject.Undefined => Err TypeError
    | JSObject.Inherited => Ok (IString (p +:+ "." +:+ rest))
    | JSObject.Own attr =>
        if from_option instanceof_JSON false (type attr) then
          let* sql :=
            jsonPathExtractionQuery g
              (quoteIdentifiers g (name m +:+ "." +:+ field attr))
              (PathArray (JS.slice 1 (JS.split JS.dot (p +:+ "." +:+ rest)))) in
          Ok (IMethod (Literal sql))
        else Ok (IString (p +:+ "." +:+ rest))
    end.
Proof.
  intros Hm Hp. unfold rewrite_dotted. rewrite Hm.
  assert (JS.includes JS.dot (p +:+ "." +:+ rest) = true) as ->.
  { rewrite includes_append. apply orb_true_iff. right. reflexivity. }
  change (p +:+ "." +:+ rest) with (p +:+ String JS.dot rest).
  rewrite (head_split_prefix _ _ _ Hp). reflexivity.
Qed.

(** The first loop on two lists one after the other. *)
Lemma rewrite_from_app parent index previous before after before' :
  rewrite_from g parent index previous before = Ok before' ->
  rewrite_from g parent index previous (before ++ after)
  = let* after' :=
      rewrite_from g parent (index + length before)
                   (match last before' with Some x => Some x | None => previous end)
                   after in
    Ok (before' ++ after')%list.
Proof.
  revert index previous before'.
  induction before as [|item before IH]; intros index previous before';
    cbn [rewrite_from app length].
  - intros [= <-]. rewrite Nat.add_0_r. cbn [last app].
    destruct (rewrite_from g parent index previous after); reflexivity.
  - destruct (rewrite_item g parent index previous item) as [item'|];
      cbn [bind]; [| discriminate].
    destruct (rewrite_from g parent (S index) (Some item') before) as [rest'|] eqn:Er;
      cbn [bind]; [| discriminate].
    intros [= <-]. rewrite (IH _ _ _ Er).
    replace (index + S (length before))%nat with (S index + length before)%nat by lia.
    assert ((match last (item' :: rest') with
             | Some x => Some x | None => previous end)
            = match last rest' with Some x => Some x | None => Some item' end) as ->.
    { destruct rest' as [|y rest']; [reflexivity |].
      rewrite last_cons. destruct (last (y :: rest')) eqn:E; [reflexivity |].
      apply last_None in E. discriminate. }
    destruct (rewrite_from g parent _ _ after); reflexivity.
Qed.

(** The second loop on associations followed by a boundary: it stops at
    the boundary with the aliases gathered. *)
Lemma scan_edges (edges : list Association) boundary rest i names :
  is_boundary boundary = true -> length names = i ->
  scan i (map IAssociation edges ++ boundary :: rest) names
  = Ok ((i + length edges)%nat, (names ++ map (fun a => Some (as_ a)) edges)%list).
Proof.
  intros Hb. revert i names.
  induction edges as [|e edges IH]; intros i names Hlen; cbn [map app length].
  - rewrite Nat.add_0_r, app_nil_r.
    destruct boundary; try discriminate; destruct rest; reflexivity.
  - cbn [scan].
    destruct (map IAssociation edges ++ boundary :: rest)%list eqn:E.
    { destruct edges; discriminate. }
    rewrite IH.
    + unfold array_set. rewrite decide_False by lia.
      rewrite Hlen, Nat.sub_diag. cbn [replicate app].
      rewrite <- app_assoc. f_equal. f_equal. lia.
    + unfold array_set. rewrite decide_False by lia.
      rewrite Hlen, Nat.sub_diag. cbn [replicate app].
      rewrite length_app. simpl. lia.
Qed.

Lemma join_names_edges c (edges : list Association) :
  join_names c (map (fun a => Some (as_ a)) edges) = JS.join c (map as_ edges).
Proof. unfold join_names. now rewrite map_map. Qed.

End RewriteProperties.

(** ** Quote targets *)

Section QuoteProperties.

Context `{Externals}.
Variable g : QueryGenerator.

Lemma rewrite_dotted_plain m s :
  JS.includes JS.dot s = false -> rewrite_dotted g m s = Ok (IString s).
Proof.
  intros Hs. unfold rewrite_dotted. rewrite Hs.
  destruct (rawAttributes m); reflexivity.
Qed.

Lemma quote_string s parent connector :
  quote g (IString s) parent connector = Ok (quoteIdentifiers g s).
Proof. reflexivity. Qed.

Lemma quote_literal val parent connector :
  quote g (IMethod (Literal val)) parent connector = Ok val.
Proof. reflexivity. Qed.

Lemma quoteIdentifier_plain s :
  identifierQuoteChar (_dialect g) = JS.dquote ->
  opt_quoteIdentifiers (options g) = true ->
  QuoteHelper.isIdentifierQuoted JS.dquote s = false ->
  quoteIdentifier g s false = JS.dq +:+ s +:+ JS.dq.
Proof.
  intros Hq Hon Hs. unfold quoteIdentifier, QuoteHelper.quoteIdentifier.
  rewrite Hq, Hon, Hs. reflexivity.
Qed.

(** The array title, direction: the direction becomes a literal, the
    column is quoted, nothing comes before. *)
Lemma quote_column_direction direction token :
  In token validOrderOptions -> JS.toUpperCase direction = token ->
  quote g (IArray [IString "title"; IString direction]) None None
  = Ok (quoteIdentifier g "title" false +:+ " " +:+ token).
Proof.
  intros Hin Hup. rewrite quote_array. cbv zeta.
  unfold rewrite. cbn [rewrite_from]. rewrite rewrite_item_string.
  change (rewrite_string g _ 0 "title") with (@Ok Item (IString "title")).
  cbn [bind]. rewrite rewrite_item_string.
  rewrite (rewrite_string_order g _ 1 direction token ltac:(lia) Hin Hup).
  cbn [bind]. reflexivity.
Qed.

End QuoteProperties.

(** C8.  A plain object whose [raw] property is set (truthy) is rejected
    with the removed-feature error, whatever the generator, its dialect,
    the parent and the connector. *)
Theorem quote_raw_object_rejected `{Externals} (g : QueryGenerator)
        (raw : string) (parent : option Model) (connector : option string) :
  JS.truthy raw = true ->
  quote g (IRawObject raw) parent connector = Err RemovedFeatureError.
Proof. intros Hraw. unfold quote. simpl. now rewrite Hraw. Qed.

Lemma quote_raw_object_rejected_witness :
  quote (H := Sample.externals) Sample.mysql (IRawObject "anything") None None
  = Err RemovedFeatureError.
Proof.
  apply (quote_raw_object_rejected (H := Sample.externals)). reflexivity.
Defined.

(** C7.  A string past the first position whose upper-case form is one of
    the eight order tokens is replaced by a literal made of a space and
    that token, whatever precedes it; so title followed by DESC, or by
    desc, gives the quoted title, a space and DESC. *)
Theorem quote_direction_token `{Externals} (g : QueryGenerator) :
  (forall parent index previous s token,
      (0 < index)%nat -> In token validOrderOptions ->
      JS.toUpperCase s = token ->
      rewrite_item g parent index previous (IString s)
      = Ok (IMethod (Literal (" " +:+ token))))
  /\ (identifierQuoteChar (_dialect g) = JS.dquote ->
      opt_quoteIdentifiers (options g) = true ->
      quote g (IArray [IString "title"; IString "DESC"]) None None
      = Ok (JS.dq +:+ "title" +:+ JS.dq +:+ " DESC")
      /\ quote g (IArray [IString "title"; IString "desc"]) None None
         = Ok (JS.dq +:+ "title" +:+ JS.dq +:+ " DESC")).
Proof.
  split.
  - intros parent index previous s token Hi Hin Hup.
    rewrite rewrite_item_string. now apply rewrite_string_order.
  - intros Hq Hon.
    assert (In "DESC" validOrderOptions) as Hin by (right; left; reflexivity).
    pose proof (quote_column_direction g "DESC" "DESC" Hin eq_refl) as Hupper.
    pose proof (quote_column_direction g "desc" "DESC" Hin eq_refl) as Hlower.
    rewrite (quoteIdentifier_plain g "title" Hq Hon eq_refl) in Hupper, Hlower.
    split; [exact Hupper | exact Hlower].
Qed.

Lemma quote_direction_token_witness :
  rewrite_item (H := Sample.externals) Sample.postgres (Some Sample.Post) 1
               (Some (IString "title")) (IString "nulls last")
  = Ok (IMethod (Literal " NULLS LAST"))
  /\ quote (H := Sample.externals) Sample.postgres
           (IArray [IString "title"; IString "desc"]) None None
     = Ok (JS.dq +:+ "title" +:+ JS.dq +:+ " DESC").
Proof.
  split.
  - apply (proj1 (quote_direction_token (H := Sample.externals) Sample.postgres));
      [lia | simpl; tauto | reflexivity].
  - apply (proj2 (quote_direction_token (H := Sample.externals) Sample.postgres));
      reflexivity.
Defined.

(** C1.  Model A declares the association posts, aliased posts, to
    model B, of which title is a plain column (no association of B and
    no attribute of B stored under another name bears that name); the
    dialect quotes with double quotes.  The path posts, title with parent
    A gives the quoted alias, a dot and the quoted column. *)
Theorem quote_association_then_column `{Externals} (g : QueryGenerator)
        (A B : Model) (a : Association) (connector : option string) :
  associations A ≫= (.!! "posts") = Some a ->
  target a = B -> as_ a = "posts" ->
  associations B ≫= (.!! "title") = None ->
  (forall attr, rawAttributes B ≫= (.!! "title") = Some attr ->
                field attr = "title") ->
  identifierQuoteChar (_dialect g) = JS.dquote ->
  opt_quoteIdentifiers (options g) = true ->
  quote g (IArray [IString "posts"; IString "title"]) (Some A) connector
  = Ok (JS.dq +:+ "posts" +:+ JS.dq +:+ "."
          +:+ JS.dq +:+ "title" +:+ JS.dq).
Proof.
  intros Hposts Htarget Has Hnone Hcolumn Hq Hon.
  rewrite quote_array. cbv zeta.
  unfold rewrite. cbn [rewrite_from]. rewrite rewrite_item_string.
  assert (rewrite_string g (fst (previous_of (Some A) None)) 0 "posts"
          = Ok (IAssociation a)) as ->.
  { unfold rewrite_string. cbn [previous_of fst Nat.ltb Nat.leb].
    simpl. now rewrite (get_defined_own _ _ _ Hposts). }
  cbn [bind]. rewrite rewrite_item_string.
  assert (rewrite_string g
            (fst (previous_of (Some A) (Some (IAssociation a)))) 1 "title"
          = Ok (IString "title")) as ->.
  { unfold previous_of. simpl fst. rewrite Htarget. unfold rewrite_string.
    change (if (0 <? 1)%nat
            then JS.indexOf (JS.toUpperCase "title") validOrderOptions
            else None) with (@None nat).
    rewrite (get_defined_undefined _ _ Hnone (fun _ => eq_refl)).
    destruct (rawAttributes B ≫= (.!! "title")) as [attr|] eqn:E.
    - rewrite (get_defined_own _ _ _ E), (Hcolumn attr eq_refl). simpl negb.
      now apply rewrite_dotted_plain.
    - rewrite (get_defined_undefined _ _ E (fun _ => eq_refl)).
      now apply rewrite_dotted_plain. }
  cbn [bind scan fst snd]. unfold array_set, prefix, join_names.
  simpl. rewrite Has.
  unfold quoteIdentifiers, quoteIdentifier, QuoteHelper.quoteIdentifier.
  rewrite Hq, Hon. reflexivity.
Qed.

Lemma quote_association_then_column_witness :
  quote (H := Sample.externals) Sample.postgres
        (IArray [IString "posts"; IString "title"]) (Some Sample.User) None
  = Ok (JS.dq +:+ "posts" +:+ JS.dq +:+ "."
          +:+ JS.dq +:+ "title" +:+ JS.dq).
Proof.
  apply (quote_association_then_column (H := Sample.externals) Sample.postgres
           Sample.User Sample.Post Sample.posts None);
    try reflexivity.
  intros attr. vm_compute. intros [= <-]. reflexivity.
Defined.

(** C10, as amended.  The current model has an attribute map; a string
    of the array has a dot in it and is not caught by an earlier case (it
    is not the name of an association of the current model, nor of an
    attribute stored under another name).  If the segment before its
    first dot is neither an attribute of the current model nor the name
    of a member that every object inherits, normalization fails with the
    runtime's TypeError, whatever follows in the array; the element is
    rewritten without failure only if that segment is an attribute or
    such an inherited name. *)
Theorem quote_dotted_string_needs_attribute `{Externals} (g : QueryGenerator)
        (parent : option Model) (connector : option string)
        (before before' after : list Item) (m : Model)
        (attributes : gmap string Attribute) (p rest : string) :
  rewrite_from g parent 0 None before = Ok before' ->
  fst (previous_of parent (last before')) = Some m ->
  rawAttributes m = Some attributes ->
  JS.includes JS.dot p = false ->
  associations m ≫= (.!! (p +:+ "." +:+ rest)) = None ->
  (forall attr, attributes !! (p +:+ "." +:+ rest) = Some attr ->
                field attr = p +:+ "." +:+ rest) ->
  (attributes !! p = None -> JSObject.inherited p = false ->
   quote g (IArray (before ++ IString (p +:+ "." +:+ rest) :: after))
         parent connector
   = Err TypeError)
  /\ (forall item,
        rewrite_item g parent (length before) (last before')
                     (IString (p +:+ "." +:+ rest)) = Ok item ->
        is_Some (attributes !! p) \/ JSObject.inherited p = true).
Proof.
  intros Hbefore Hm Hattrs Hp Hassoc Hattr.
  assert (rewrite_item g parent (length before) (last before')
                       (IString (p +:+ "." +:+ rest))
          = match JSObject.get attributes p with
            | JSObject.Undefined => Err TypeError
            | JSObject.Inherited => Ok (IString (p +:+ "." +:+ rest))
            | JSObject.Own attr =>
                if from_option instanceof_JSON false (type attr) then
                  let* sql :=
                    jsonPathExtractionQuery g
                      (quoteIdentifiers g (name m +:+ "." +:+ field attr))
                      (PathArray (JS.slice 1 (JS.split JS.dot (p +:+ "." +:+ rest)))) in
                  Ok (IMethod (Literal sql))
                else Ok (IString (p +:+ "." +:+ rest))
            end) as Hitem.
  { rewrite rewrite_item_string, Hm.
    rewrite rewrite_string_dotted.
    - now apply rewrite_dotted_unknown_prefix.
    - rewrite includes_append. apply orb_true_iff. right. reflexivity.
    - exact Hassoc.
    - intros attr. rewrite Hattrs. exact (Hattr attr). }
  split.
  - intros Hnone Hni. rewrite (get_undefined _ _ Hnone Hni) in Hitem.
    rewrite quote_array. cbv zeta. unfold rewrite.
    rewrite (rewrite_from_app g parent 0 None before _ before' Hbefore).
    cbn [rewrite_from Nat.add].
    assert ((match last before' with Some x => Some x | None => None end)
            = last before') as -> by (destruct (last before'); reflexivity).
    rewrite Hitem. reflexivity.
  - intros item. rewrite Hitem. unfold JSObject.get.
    destruct (attributes !! p); [eauto |].
    destruct (JSObject.inherited p); [eauto | discriminate].
Qed.

Lemma quote_dotted_string_needs_attribute_witness :
  quote (H := Sample.externals) Sample.postgres
        (IArray [IString "posts"; IString "stats.views"; IString "DESC"])
        (Some Sample.User) None
  = Err TypeError.
Proof.
  refine (proj1 (quote_dotted_string_needs_attribute (H := Sample.externals)
                   Sample.postgres (Some Sample.User) None
                   [IString "posts"] [IAssociation Sample.posts] [IString "DESC"]
                   Sample.Post _ "stats" "views"
                   eq_refl eq_refl eq_refl eq_refl eq_refl _) eq_refl eq_refl).
  intros attr. vm_compute. discriminate.
Defined.

(** C10, as stated, fails: toString is no attribute of Post, yet the
    string toString.x past the association posts is not refused; the
    member toString that the attribute map inherits is read in the place
    of an attribute, and the string is quoted as an identifier. *)
Lemma quote_dotted_string_inherited_prefix :
  rawAttributes Sample.Post ≫= (.!! "toString") = None
  /\ quote (H := Sample.externals) Sample.postgres
           (IArray [IString "posts"; IString "toString.x"])
           (Some Sample.User) None
     = Ok (JS.dq +:+ "posts" +:+ JS.dq +:+ "."
             +:+ JS.dq +:+ "toString" +:+ JS.dq +:+ "."
             +:+ JS.dq +:+ "x" +:+ JS.dq).
Proof. split; reflexivity. Qed.

(** C5.  Once the first loop has turned the array into association
    edges followed by a boundary element (a string, a literal or a model
    attribute) and whatever comes after it, the text starts with the
    aliases of the edges joined by the connector, quoted as one
    identifier and followed by a dot; with no edge, a string as boundary
    and a parent, it starts with the quoted name of the parent and a dot;
    otherwise with nothing.  The texts of the boundary and of every
    element after it follow, one after the other. *)
Theorem quote_path_prefix `{Externals} (g : QueryGenerator)
        (parent : option Model) (connector : option string)
        (collection : list Item) (edges : list Association)
        (boundary : Item) (rest : list Item) :
  rewrite g parent collection = Ok (map IAssociation edges ++ boundary :: rest)%list ->
  is_boundary boundary = true ->
  let c := JS.or_else connector "." in
  let start :=
    match edges with
    | _ :: _ => quoteIdentifier g (JS.join c (map as_ edges)) false +:+ "."
    | [] =>
        match boundary, parent with
        | IString _, Some p => quoteIdentifier g (name p) false +:+ "."
        | _, _ => EmptyString
        end
    end in
  quote g (IArray collection) parent connector
  = let* texts :=
      quote_all (fun item => quote g item parent (Some c)) (boundary :: rest) in
    Ok (start +:+ concat_all texts).
Proof.
  intros Hrw Hb c start. rewrite quote_array. cbv zeta. rewrite Hrw.
  cbn [bind]. rewrite (scan_edges edges boundary rest 0 [] Hb eq_refl).
  cbn [bind fst snd Nat.add app].
  assert (JS.slice (length edges) (map IAssociation edges ++ boundary :: rest)
          = boundary :: rest) as ->.
  { unfold JS.slice. rewrite <- (length_map IAssociation edges).
    apply drop_app_length. }
  rewrite append_results_all.
  assert (prefix g parent (JS.or_else connector ".")
                 (map IAssociation edges ++ boundary :: rest) (length edges)
                 (map (fun a => Some (as_ a)) edges) = start) as ->.
  { subst start c. unfold prefix. destruct edges as [|e edges].
    - simpl. destruct boundary, parent; reflexivity.
    - cbn [length Nat.ltb Nat.leb]. now rewrite join_names_edges. }
  reflexivity.
Qed.

Lemma quote_path_prefix_witness :
  quote (H := Sample.externals) Sample.mysql
        (IArray [IString "posts"; IString "title"; IString "asc"])
        (Some Sample.User) (Some "->")
  = Ok "`posts`.`title` ASC".
Proof.
  apply (quote_path_prefix (H := Sample.externals) Sample.mysql
           (Some Sample.User) (Some "->")
           [IString "posts"; IString "title"; IString "asc"]
           [Sample.posts] (IString "title") [IMethod (Literal " ASC")]);
    reflexivity.
Defined.

(** ** Evaluations *)

Section Evaluations.

Existing Instance Sample.externals.

Example toPath_dotted : toPath (PathString "a.0.b") = ["a"; "0"; "b"].
Proof. reflexivity. Qed.

Example toPath_brackets :
  toPath (PathString "a[0].b['c.d'][1.5]") = ["a"; "0"; "b"; "c.d"; "1.5"].
Proof. reflexivity. Qed.

Example toPath_empty_keys :
  toPath (PathString ".a..b.") = [""; "a"; ""; "b"; ""].
Proof. reflexivity. Qed.

Example bracket_indices_all : bracket_indices 5 "$.0.1" = "$[0][1]".
Proof. reflexivity. Qed.

Example bracket_indices_digits_only : bracket_indices 6 "$.a.0x" = "$.a.0x".
Proof. reflexivity. Qed.

Example split_dots : JS.split JS.dot ".a." = [""; "a"; ""].
Proof. reflexivity. Qed.

(** A path into a JSON column of the associated model, with a
    direction. *)
Example quote_json_column :
  quote Sample.postgres
        (IArray [IString "posts"; IString "meta.a.0.b"; IString "desc"])
        (Some Sample.User) None
  = Ok (JS.dq +:+ "posts" +:+ JS.dq +:+ ".("
          +:+ JS.dq +:+ "Post" +:+ JS.dq +:+ "." +:+ JS.dq +:+ "meta" +:+ JS.dq
          +:+ "#>>'{a,0,b}') DESC").
Proof. reflexivity. Qed.

(** A column alone is prefixed with the name of the parent. *)
Example quote_parent_prefix :
  quote Sample.mysql (IArray [IString "title"]) (Some Sample.Post) None
  = Ok "`Post`.`title`".
Proof. reflexivity. Qed.

(** An array inside an array is stepped over by the second loop when it
    is not the last element: it leaves an empty table name. *)
Example quote_nested_array_skipped :
  quote Sample.mysql
        (IArray [IArray [IString "title"; IString "desc"]; IString "id"])
        (Some Sample.Post) None
  = Ok "``.`id`".
Proof. reflexivity. Qed.

Example quote_model_attribute :
  quote Sample.mysql (IModelAttribute Sample.Post "title") None None
  = Ok "`Post`.`title`".
Proof. reflexivity. Qed.

Example quote_unknown_structure :
  quote Sample.mysql (IAssociation Sample.posts) None None
  = Err (UnknownStructure "[object]").
Proof. reflexivity. Qed.

Example escape_null :
  escape Sample.mysql VNull (Some (Sample.strict_field false)) None = Ok "NULL".
Proof. reflexivity. Qed.

(** A truthy value is validated first. *)
Example escape_truthy_validated :
  escape_run Sample.mysql (VNumber 1) (Some (Sample.strict_field false)) None
  = ([CallValidate (VNumber 1)], Err (ValidationError "rejected")).
Proof. reflexivity. Qed.

End Evaluations.

(** * Further properties *)

(** ** extractTableDetails, addSchema and quoteTable *)

Section TableProperties.

Lemma or_else_truthy a b : JS.truthy b = true -> JS.truthy (JS.or_else a b) = true.
Proof.
  intros Hb. unfold JS.or_else. destruct a as [s|]; [| exact Hb].
  destruct (JS.truthy s) eqn:Hs; [exact Hs | exact Hb].
Qed.

Lemma or_else_Some_truthy s b : JS.truthy s = true -> JS.or_else (Some s) b = s.
Proof. intros Hs. unfold JS.or_else. now rewrite Hs. Qed.

Lemma append_empty_l (a : string) : EmptyString +:+ a = a.
Proof. reflexivity. Qed.

Lemma extractTableDetails_truthy tableName opts :
  JS.truthy (details_schema (extractTableDetails tableName opts)) = true
  /\ JS.truthy (details_delimiter (extractTableDetails tableName opts)) = true.
Proof.
  split; unfold extractTableDetails; cbn [details_schema details_delimiter];
    apply or_else_truthy, or_else_truthy; reflexivity.
Qed.

Lemma truthy_opt_Some s : JS.truthy_opt (Some s) = JS.truthy s.
Proof. reflexivity. Qed.

(** The text of the table of a descriptor with a schema. *)
Lemma quoteTable_with_schema g sch t del a n alias :
  JS.truthy sch = true -> JS.truthy del = true ->
  quoteTable g (TableObject {| td_schema := Some sch; td_tableName := t;
                               td_delimiter := Some del;
                               td_as := a; td_name := n |}) alias
  = let table :=
      if supports_schemas (_dialect g)
      then quoteIdentifier g sch false +:+ "." +:+ quoteIdentifier g t false
      else quoteIdentifier g (sch +:+ del +:+ t) false in
    match resolve_alias (TableObject {| td_schema := Some sch; td_tableName := t;
                                        td_delimiter := Some del;
                                        td_as := a; td_name := n |}) alias with
    | AVString x =>
        if JS.truthy x then Ok (table +:+ " AS " +:+ quoteIdentifier g x false)
        else Ok table
    | AVObject => Err TypeError
    | AVAbsent => Ok table
    end.
Proof.
  intros Hs Hd. unfold quoteTable. cbn [td_schema td_tableName td_delimiter].
  rewrite truthy_opt_Some, Hs. cbn [default].
  rewrite (or_else_Some_truthy _ _ Hd).
  destruct (supports_schemas (_dialect g)); now rewrite ?append_assoc.
Qed.

End TableProperties.

(** X1.  Whatever is handed to [extractTableDetails], the schema and the
    delimiter it returns are not empty; with no schema and no delimiter
    given anywhere they are public and a dot. *)
Theorem extractTableDetails_never_empty (tableName : TableArg)
        (opts : option DetailsOptions) :
  JS.truthy (details_schema (extractTableDetails tableName opts)) = true
  /\ JS.truthy (details_delimiter (extractTableDetails tableName opts)) = true
  /\ (forall n, details_schema (extractTableDetails (TAName n) None) = "public"
                /\ details_delimiter (extractTableDetails (TAName n) None) = ".").
Proof.
  split; [apply extractTableDetails_truthy |].
  split; [apply extractTableDetails_truthy |].
  intros n. unfold extractTableDetails. destruct (JS.truthy n); split; reflexivity.
Qed.

(** X2.  [extractTableDetails] is idempotent: handing its result in
    again, with any options, gives the same result. *)
Theorem extractTableDetails_idempotent (tableName : TableArg)
        (opts opts' : option DetailsOptions) :
  extractTableDetails
    (TAObject (details_object (extractTableDetails tableName opts))) opts'
  = extractTableDetails tableName opts.
Proof.
  destruct (extractTableDetails_truthy tableName opts) as (Hs & Hd).
  destruct (extractTableDetails tableName opts) as [sch tn del].
  cbn [details_schema details_delimiter] in Hs, Hd.
  unfold extractTableDetails, details_object.
  cbn [do_schema do_delimiter do_tableName details_schema details_tableName
       details_delimiter].
  now rewrite (or_else_Some_truthy _ _ Hs), (or_else_Some_truthy _ _ Hd).
Qed.

(** X3.  The details extracted from a bare table name always render
    with a schema: the quoted schema, a dot and the quoted name where the
    dialect supports schemas, and elsewhere the schema, the delimiter and
    the name quoted as one identifier. *)
Theorem quoteTable_of_extracted_name (g : QueryGenerator) (n : string)
        (opts : option DetailsOptions) :
  JS.truthy n = true ->
  let d := extractTableDetails (TAName n) opts in
  exists t,
    details_table d = Some t
    /\ quoteTable g (TableObject t) AliasAbsent
       = Ok (if supports_schemas (_dialect g)
             then quoteIdentifier g (details_schema d) false +:+ "."
                    +:+ quoteIdentifier g n false
             else quoteIdentifier g
                    (details_schema d +:+ details_delimiter d +:+ n) false).
Proof.
  intros Hn d.
  destruct (extractTableDetails_truthy (TAName n) opts) as (Hs & Hd).
  fold d in Hs, Hd.
  assert (details_tableName d = Some n) as Htn.
  { subst d. unfold extractTableDetails. now rewrite Hn. }
  unfold details_table. rewrite Htn. eexists. split; [reflexivity |].
  now rewrite (quoteTable_with_schema g _ n _ None None AliasAbsent Hs Hd).
Qed.

Lemma quoteTable_of_extracted_name_witness :
  exists t,
    details_table (extractTableDetails (TAName "users") None) = Some t
    /\ quoteTable Sample.postgres (TableObject t) AliasAbsent
       = Ok (JS.dq +:+ "public" +:+ JS.dq +:+ "." +:+ JS.dq +:+ "users" +:+ JS.dq).
Proof.
  exact (quoteTable_of_extracted_name Sample.postgres "users" None eq_refl).
Defined.

(** X4.  [addSchema] hands a name back as it is and, for an object
    without a schema, hands back its table name; for an object with a
    schema it builds an object whose [toString] is the table qualified
    by the schema, the delimiter being a dot unless the object has its
    own. *)
Theorem addSchema_renders_schema (g : QueryGenerator) (o : SchemaSource)
        (t : string) :
  src_tableName o = Some t -> JS.truthy t = true ->
  (forall n, addSchema (SchemaOfName n) = WithoutSchema (Named n))
  /\ (JS.truthy_opt (_schema o) = false ->
      addSchema (SchemaOfObject o) = WithoutSchema (Named t))
  /\ (forall sch, _schema o = Some sch -> JS.truthy sch = true ->
        exists d,
          addSchema (SchemaOfObject o) = WithSchema d
          /\ schema_toString g d
             = Some (Ok (if supports_schemas (_dialect g)
                         then quoteIdentifier g sch false +:+ "."
                                +:+ quoteIdentifier g t false
                         else quoteIdentifier g
                                (sch +:+ JS.or_else (_schemaDelimiter o) "." +:+ t)
                                false))).
Proof.
  intros Ht Htt. split; [reflexivity |]. split.
  - intros Hs. unfold addSchema, or_self. rewrite Hs, Ht. cbn [negb].
    rewrite truthy_opt_Some, Htt. reflexivity.
  - intros sch Hs Hst. unfold addSchema, or_self.
    rewrite Hs, Ht, !truthy_opt_Some, Hst, Htt. cbn [negb default].
    eexists. split; [reflexivity |].
    unfold schema_toString, schema_table. cbn [sd_tableName sd_schema sd_delimiter fmap option_fmap option_map].
    rewrite quoteTable_with_schema;
      [reflexivity | exact Hst | now apply or_else_truthy].
Qed.

Lemma addSchema_renders_schema_witness :
  exists d,
    addSchema (SchemaOfObject Sample.user_source) = WithSchema d
    /\ schema_toString Sample.mysql d = Some (Ok "`app.users`").
Proof.
  exact (proj2 (proj2 (addSchema_renders_schema Sample.mysql Sample.user_source
                         "users" eq_refl eq_refl)) "app" eq_refl eq_refl).
Defined.

(** X5.  [quoteTable] with [alias === true] on the object that
    [addSchema] builds for a model with a schema names the table after
    the model: the qualified table, AS, and the quoted model name. *)
Theorem quoteTable_of_addSchema_alias (g : QueryGenerator) (o : SchemaSource)
        (sch t n : string) :
  _schema o = Some sch -> JS.truthy sch = true ->
  src_tableName o = Some t -> JS.truthy t = true ->
  src_name o = Some n -> JS.truthy n = true ->
  exists d td,
    addSchema (SchemaOfObject o) = WithSchema d
    /\ schema_table d = Some td
    /\ quoteTable g (TableObject td) AliasTrue
       = Ok ((if supports_schemas (_dialect g)
              then quoteIdentifier g sch false +:+ "."
                     +:+ quoteIdentifier g t false
              else quoteIdentifier g
                     (sch +:+ JS.or_else (_schemaDelimiter o) "." +:+ t) false)
               +:+ " AS " +:+ quoteIdentifier g n false).
Proof.
  intros Hs Hst Ht Htt Hn Hnt. unfold addSchema, or_self.
  rewrite Hs, Ht, Hn, !truthy_opt_Some, Hst, Htt, Hnt. cbn [negb default].
  eexists. eexists. split; [reflexivity |]. split; [reflexivity |].
  rewrite quoteTable_with_schema; [| exact Hst | now apply or_else_truthy].
  unfold resolve_alias.
  cbn [td_as td_name sd_name sd_schema sd_delimiter JS.truthy_opt default id].
  cbv zeta. now rewrite !Hnt.
Qed.

Lemma quoteTable_of_addSchema_alias_witness :
  exists d td,
    addSchema (SchemaOfObject Sample.user_source) = WithSchema d
    /\ schema_table d = Some td
    /\ quoteTable Sample.mysql (TableObject td) AliasTrue
       = Ok "`app.users` AS `User`".
Proof.
  exact (quoteTable_of_addSchema_alias Sample.mysql Sample.user_source
           "app" "users" "User" eq_refl eq_refl eq_refl eq_refl eq_refl eq_refl).
Defined.

(** X6.  [extractTableDetails] reads back from the object of [addSchema]
    the schema, the table name and the delimiter that went in, whatever
    its own options say. *)
Theorem extractTableDetails_of_addSchema (o : SchemaSource) (sch t : string)
        (opts : option DetailsOptions) :
  _schema o = Some sch -> JS.truthy sch = true ->
  src_tableName o = Some t -> JS.truthy t = true ->
  exists d obj,
    addSchema (SchemaOfObject o) = WithSchema d
    /\ schema_object d = Some obj
    /\ extractTableDetails (TAObject obj) opts
       = {| details_schema := sch;
            details_tableName := Some t;
            details_delimiter := JS.or_else (_schemaDelimiter o) "." |}.
Proof.
  intros Hs Hst Ht Htt. unfold addSchema, or_self.
  rewrite Hs, Ht, !truthy_opt_Some, Hst, Htt. cbn [negb default].
  eexists. eexists. split; [reflexivity |]. split; [reflexivity |].
  unfold extractTableDetails. cbn [do_schema do_tableName do_delimiter].
  rewrite (or_else_Some_truthy _ _ Hst).
  rewrite (or_else_Some_truthy (JS.or_else (_schemaDelimiter o) "."));
    [reflexivity | now apply or_else_truthy].
Qed.

Lemma extractTableDetails_of_addSchema_witness :
  exists d obj,
    addSchema (SchemaOfObject Sample.user_source) = WithSchema d
    /\ schema_object d = Some obj
    /\ extractTableDetails (TAObject obj)
         (Some {| given_schema := Some "other"; given_delimiter := Some "/" |})
       = {| details_schema := "app"; details_tableName := Some "users";
            details_delimiter := "." |}.
Proof.
  exact (extractTableDetails_of_addSchema Sample.user_source "app" "users" _
           eq_refl eq_refl eq_refl eq_refl).
Defined.

(** X7.  A descriptor without a schema renders as its bare table name
    does, in every dialect, with no alias and with an alias given by
    name. *)
Theorem quoteTable_without_schema (g : QueryGenerator) (d : TableDescriptor) :
  JS.truthy_opt (td_schema d) = false ->
  quoteTable g (TableObject d) AliasAbsent
  = quoteTable g (TableName (td_tableName d)) AliasAbsent
  /\ (forall a, quoteTable g (TableObject d) (AliasString a)
                = quoteTable g (TableName (td_tableName d)) (AliasString a)).
Proof.
  intros Hs. unfold quoteTable. rewrite Hs.
  destruct (supports_schemas (_dialect g)); split; try intros a; reflexivity.
Qed.

Lemma quoteTable_without_schema_witness :
  quoteTable Sample.postgres
             (TableObject {| td_schema := None; td_tableName := "users";
                             td_delimiter := Some "/"; td_as := Some "u";
                             td_name := None |}) AliasAbsent
  = quoteTable Sample.postgres (TableName "users") AliasAbsent.
Proof.
  exact (proj1 (quoteTable_without_schema Sample.postgres
                  {| td_schema := None; td_tableName := "users";
                     td_delimiter := Some "/"; td_as := Some "u";
                     td_name := None |} eq_refl)).
Defined.

(** ** nameIndexes *)

Section NameIndexesProperties.

Variable underscore : string -> string.

Lemma nameIndex_named t index : is_Some (ix_name (nameIndex underscore t index)).
Proof. unfold nameIndex. destruct (ix_name index) eqn:E; [rewrite E |]; eauto. Qed.

Lemma nameIndex_fields t index :
  ix_fields (nameIndex underscore t index) = ix_fields index.
Proof. unfold nameIndex. destruct (ix_name index); reflexivity. Qed.

Lemma nameIndex_keeps t index n :
  ix_name index = Some n -> nameIndex underscore t index = index.
Proof. intros Hn. unfold nameIndex. now rewrite Hn. Qed.

Lemma nameIndexes_Ok indexes raw result :
  nameIndexes underscore indexes raw = Ok result ->
  exists t, result = map (nameIndex underscore t) indexes.
Proof.
  unfold nameIndexes. destruct raw; cbn [bind]; try discriminate;
    intros [= <-]; eauto.
Qed.

End NameIndexesProperties.

(** X8.  When [nameIndexes] returns, it returns as many indexes as it was
    given, in the same order and with the same fields; every one of them
    has a name; an index that had a name is returned unchanged. *)
Theorem nameIndexes_names_all (underscore : string -> string)
        (indexes result : list Index) (raw : RawTablename) :
  nameIndexes underscore indexes raw = Ok result ->
  length result = length indexes
  /\ (forall i index, indexes !! i = Some index ->
        exists index',
          result !! i = Some index'
          /\ ix_fields index' = ix_fields index
          /\ is_Some (ix_name index')
          /\ (is_Some (ix_name index) -> index' = index)).
Proof.
  intros Hok. destruct (nameIndexes_Ok _ _ _ _ Hok) as [t ->].
  split; [apply length_map |].
  intros i index Hi. exists (nameIndex underscore t index).
  split; [| split; [| split]].
  - change (map (nameIndex underscore t) indexes)
      with (nameIndex underscore t <$> indexes).
    now rewrite list_lookup_fmap, Hi.
  - apply nameIndex_fields.
  - apply nameIndex_named.
  - intros [n Hn]. eapply nameIndex_keeps, Hn.
Qed.

Lemma nameIndexes_names_all_witness :
  length [ {| ix_name := Some "users_email_name_age";
              ix_fields := ix_fields Sample.unnamed_index |};
           Sample.named_index ] = 2%nat.
Proof.
  exact (proj1 (nameIndexes_names_all Sample.lower
                  [Sample.unnamed_index; Sample.named_index]
                  [ {| ix_name := Some "users_email_name_age";
                       ix_fields := ix_fields Sample.unnamed_index |};
                    Sample.named_index ]
                  (RawObject (Some "Users")) eq_refl)).
Defined.

(** X9.  [nameIndexes] is idempotent: handing its result in again, even
    with another table name, changes nothing.  A null table name fails,
    whatever the indexes. *)
Theorem nameIndexes_idempotent (underscore : string -> string)
        (indexes result : list Index) (raw raw' : RawTablename) :
  nameIndexes underscore indexes raw = Ok result ->
  raw' <> RawNull ->
  nameIndexes underscore result raw' = Ok result
  /\ nameIndexes underscore indexes RawNull = Err TypeError.
Proof.
  intros Hok Hraw. split; [| reflexivity].
  destruct (nameIndexes_Ok _ _ _ _ Hok) as [t ->].
  assert (forall t', map (nameIndex underscore t')
                         (map (nameIndex underscore t) indexes)
                     = map (nameIndex underscore t) indexes) as Hmap.
  { intros t'. rewrite map_map. apply map_ext. intros index.
    destruct (nameIndex_named underscore t index) as [n Hn].
    now apply (nameIndex_keeps underscore t' _ n). }
  unfold nameIndexes. destruct raw'; cbn [bind]; try congruence;
    now rewrite Hmap.
Qed.

Lemma nameIndexes_idempotent_witness :
  nameIndexes Sample.lower
    [ {| ix_name := Some "users_email_name_age";
         ix_fields := ix_fields Sample.unnamed_index |};
      Sample.named_index ] (RawName "other")
  = Ok [ {| ix_name := Some "users_email_name_age";
            ix_fields := ix_fields Sample.unnamed_index |};
         Sample.named_index ].
Proof.
  exact (proj1 (nameIndexes_idempotent Sample.lower
                  [Sample.unnamed_index; Sample.named_index]
                  [ {| ix_name := Some "users_email_name_age";
                       ix_fields := ix_fields Sample.unnamed_index |};
                    Sample.named_index ]
                  (RawObject (Some "Users")) (RawName "other")
                  eq_refl ltac:(discriminate))).
Defined.

(** ** More on escape *)

Section MoreEscapeProperties.

Context `{Externals}.
Variable g : QueryGenerator.

Lemma tbind_Err {A B} log e (f : A -> Traced B) :
  tbind (log, Err e) f = (log, Err e).
Proof. reflexivity. Qed.

Lemma validate_each_pass v items opts :
  Forall (fun item => v item opts = Ok tt) items ->
  validate_each v items opts = (map CallValidate items, Ok tt).
Proof.
  induction 1 as [|item items Hi _ IH]; [reflexivity |].
  cbn [validate_each map]. unfold tcall. rewrite Hi. unfold tbind.
  now rewrite IH.
Qed.

Lemma validate_each_fail v passed bad rest opts e :
  Forall (fun item => v item opts = Ok tt) passed ->
  v bad opts = Err e ->
  validate_each v (passed ++ bad :: rest) opts
  = (map CallValidate (passed ++ [bad]), Err e).
Proof.
  induction 1 as [|item items Hi _ IH]; intros Hbad.
  - cbn [validate_each map app]. unfold tcall. now rewrite Hbad.
  - cbn [validate_each map app]. unfold tcall. rewrite Hi. unfold tbind.
    now rewrite (IH Hbad).
Qed.

Lemma after_validation_no_validate value fld opts ty w :
  ~ In (CallValidate w) (fst (after_validation g value fld opts ty)).
Proof.
  unfold after_validation. destruct (stringify ty) as [str|]; cbn.
  - destruct (str value _) as [text|e]; cbn;
      [destruct (escape_is_false ty); cbn |]; intuition discriminate.
  - intuition discriminate.
Qed.

End MoreEscapeProperties.

Section ValidationProperties.

Context `{Externals}.
Variable g : QueryGenerator.

(** [escape] on a value that is neither null, undefined nor a wrapper,
    for a field with a type. *)
Lemma escape_run_typed value fld ty opts :
  fld ≫= type = Some ty ->
  value <> VNull -> value <> VUndefined -> (forall m, value <> VMethod m) ->
  escape_run g value fld opts
  = do* _ :=
      (match validate ty with
       | Some v =>
           if typeValidation g && value_truthy value then
             match value with
             | VArray items =>
                 if isList (default no_options opts)
                 then validate_each v items (default no_options opts)
                 else tcall (CallValidate value) (v value (default no_options opts))
             | _ => tcall (CallValidate value) (v value (default no_options opts))
             end
           else tret tt
       | None => tret tt
       end) in
    after_validation g value fld (default no_options opts) ty.
Proof.
  intros Hty Hn Hu Hm. unfold escape_run, after_validation. rewrite Hty.
  destruct value; try reflexivity; congruence.
Qed.

End ValidationProperties.

(** X10.  With type validation on, a truthy value that the validator of
    the field's type rejects makes [escape] fail with the validator's
    error; the validator is the only collaborator called: the value is
    neither stringified nor escaped. *)
Theorem escape_validation_failure `{Externals} (g : QueryGenerator)
        (value : Value) (fld : option Attribute) (ty : DataType)
        (v : Value -> EscapeOptions -> Result unit)
        (opts : option EscapeOptions) (e : Error) :
  fld ≫= type = Some ty -> validate ty = Some v ->
  typeValidation g = true -> value_truthy value = true ->
  (forall m, value <> VMethod m) ->
  (forall items, value = VArray items -> isList (default no_options opts) = false) ->
  v value (default no_options opts) = Err e ->
  escape_run g value fld opts = ([CallValidate value], Err e).
Proof.
  intros Hty Hv Hon Ht Hm Hl He.
  rewrite (escape_run_typed g value fld ty opts Hty); try exact Hm;
    try (intros ->; discriminate).
  rewrite Hv, Hon, Ht. cbn [andb].
  assert (match value with
          | VArray items =>
              if isList (default no_options opts)
              then validate_each v items (default no_options opts)
              else tcall (CallValidate value) (v value (default no_options opts))
          | _ => tcall (CallValidate value) (v value (default no_options opts))
          end = ([CallValidate value], Err e)) as ->.
  { destruct value; try (unfold tcall; now rewrite He).
    rewrite (Hl _ eq_refl). unfold tcall. now rewrite He. }
  reflexivity.
Qed.

Lemma escape_validation_failure_witness :
  escape_run (H := Sample.externals) Sample.postgres (VString "ten")
             (Some Sample.number_field) None
  = ([CallValidate (VString "ten")], Err (ValidationError "not a number")).
Proof.
  apply (escape_validation_failure (H := Sample.externals) Sample.postgres
           (VString "ten") (Some Sample.number_field) Sample.number_type
           (fun v _ => match v with
                       | VNumber _ => Ok tt
                       | _ => Err (ValidationError "not a number")
                       end) None);
    try reflexivity; intros; discriminate.
Defined.

(** X11.  With type validation on and [isList] set, the elements of an
    array are validated one by one, in order, up to the first one that is
    rejected: its error is the result, the elements after it are not
    validated, nothing is stringified or escaped.  When every element
    passes, the validator has been called on each of them, in order,
    before anything else. *)
Theorem escape_validates_list_elements `{Externals} (g : QueryGenerator)
        (fld : option Attribute) (ty : DataType)
        (v : Value -> EscapeOptions -> Result unit) (opts : EscapeOptions) :
  fld ≫= type = Some ty -> validate ty = Some v ->
  typeValidation g = true -> isList opts = true ->
  (forall passed bad rest e,
      Forall (fun item => v item opts = Ok tt) passed ->
      v bad opts = Err e ->
      escape_run g (VArray (passed ++ bad :: rest)) fld (Some opts)
      = (map CallValidate (passed ++ [bad]), Err e))
  /\ (forall items,
        Forall (fun item => v item opts = Ok tt) items ->
        exists calls,
          escape_calls g (VArray items) fld (Some opts)
          = (map CallValidate items ++ calls)%list
          /\ forall w, ~ In (CallValidate w) calls).
Proof.
  intros Hty Hv Hon Hlist. split.
  - intros passed bad rest e Hpass Hbad.
    rewrite (escape_run_typed g _ fld ty (Some opts) Hty); try discriminate.
    rewrite Hv, Hon. cbn [value_truthy andb from_option id]. rewrite Hlist.
    now rewrite (validate_each_fail v passed bad rest opts e Hpass Hbad).
  - intros items Hpass. unfold escape_calls.
    rewrite (escape_run_typed g _ fld ty (Some opts) Hty); try discriminate.
    rewrite Hv, Hon. cbn [value_truthy andb from_option id]. rewrite Hlist.
    rewrite (validate_each_pass v items opts Hpass).
    exists (fst (after_validation g (VArray items) fld opts ty)).
    split.
    + unfold tbind. destruct (after_validation _ _ _ _ _). reflexivity.
    + intros w. apply after_validation_no_validate.
Qed.

Lemma escape_validates_list_elements_witness :
  escape_run (H := Sample.externals) Sample.postgres
             (VArray [VNumber 1; VString "two"; VString "three"])
             (Some Sample.number_field) (Some Sample.list_options)
  = ([CallValidate (VNumber 1); CallValidate (VString "two")],
     Err (ValidationError "not a number")).
Proof.
  refine (proj1 (escape_validates_list_elements (H := Sample.externals)
                   Sample.postgres (Some Sample.number_field) Sample.number_type
                   _ Sample.list_options eq_refl eq_refl eq_refl eq_refl)
                [VNumber 1] (VString "two") [VString "three"] _ _ eq_refl).
  repeat constructor.
Defined.

Lemma escape_calls_unvalidated `{Externals} (g : QueryGenerator)
      (value : Value) (fld : option Attribute) (opts : option EscapeOptions) :
  typeValidation g = false ->
  forall w, ~ In (CallValidate w) (escape_calls g value fld opts).
Proof.
  intros Hoff w. unfold escape_calls.
  destruct (fld ≫= type) as [ty|] eqn:Hty.
  - destruct value;
      try (rewrite (escape_run_typed g _ fld ty opts Hty); try discriminate;
           rewrite Hoff; cbn [andb];
           assert (forall o : option (Value -> EscapeOptions -> Result unit),
                      match o with Some _ => tret tt | None => tret tt end
                      = tret tt) as -> by (intros []; reflexivity);
           rewrite tbind_tret_l; apply after_validation_no_validate);
      cbn; intuition discriminate.
  - unfold escape_run. rewrite Hty.
    destruct value; cbn; intuition discriminate.
Qed.

(** X12.  With type validation off, [escape] calls no validator,
    whatever the value, the field and the options. *)
Theorem escape_without_type_validation `{Externals} (g : QueryGenerator)
        (value : Value) (fld : option Attribute) (opts : option EscapeOptions) :
  typeValidation g = false ->
  forall w, ~ In (CallValidate w) (escape_calls g value fld opts).
Proof. apply escape_calls_unvalidated. Qed.

Lemma escape_without_type_validation_witness :
  ~ In (CallValidate (VString "ten"))
       (escape_calls (H := Sample.externals)
          {| _dialect := _dialect Sample.postgres;
             options := options Sample.postgres;
             typeValidation := false |}
          (VString "ten") (Some Sample.number_field) None).
Proof.
  apply (escape_without_type_validation (H := Sample.externals)). reflexivity.
Defined.

(** ** More on JSON paths *)

Section PathFacts.

Lemma length_append (a b : string) :
  String.length (a +:+ b) = (String.length a + String.length b)%nat.
Proof. induction a as [|x a IH]; simpl; [reflexivity | now rewrite IH]. Qed.

Lemma key_end_keys keys :
  key_end (concat_all (map (fun k => "." +:+ k) keys)).
Proof. destruct keys as [|k keys]; [now left | right; simpl; eauto]. Qed.

Lemma join_keys sep x keys :
  JS.join sep (x :: keys) = x +:+ concat_all (map (fun k => sep +:+ k) keys).
Proof.
  revert x. induction keys as [|k keys IH]; intros x.
  - simpl. now rewrite append_empty_r.
  - change (JS.join sep (x :: k :: keys)) with (x +:+ sep +:+ JS.join sep (k :: keys)).
    rewrite IH. cbn [map concat_all foldr]. now rewrite append_assoc.
Qed.

Lemma span_digits_end rest : key_end rest -> JS.span_digits rest = (EmptyString, rest).
Proof. intros [-> | [r ->]]; reflexivity. Qed.

(** The digits at the head of a dot-free key followed by the rest of a
    path: the whole key when it is made of digits, and otherwise what is
    left starts with a character that is no dot. *)
Lemma span_digits_key k rest :
  JS.includes JS.dot k = false -> key_end rest ->
  if digits_only k then JS.span_digits (k +:+ rest) = (k, rest)
  else exists d c r, JS.span_digits (k +:+ rest) = (d, String c r)
                     /\ Ascii.eqb c "." = false.
Proof.
  intros Hk Hrest. induction k as [|a k IH].
  - simpl. now apply span_digits_end.
  - simpl in Hk. destruct (Ascii.eqb a JS.dot) eqn:Ha; [discriminate |].
    specialize (IH Hk). cbn [digits_only]. simpl String.append.
    cbn [JS.span_digits]. destruct (JS.is_digit a); cbn [andb].
    + destruct (digits_only k).
      * now rewrite IH.
      * destruct IH as (d & c & r & -> & Hc). eauto.
    + exists EmptyString, a, (k +:+ rest). split; [reflexivity | exact Ha].
Qed.

Lemma append_cons a (s t : string) : String a s +:+ t = String a (s +:+ t).
Proof. reflexivity. Qed.

Lemma bracket_indices_S n c r :
  bracket_indices (S n) (String c r)
  = if Ascii.eqb c "." then
      let '(d, rest) := JS.span_digits r in
      if JS.truthy d
         && match rest with
            | EmptyString => true
            | String c' _ => Ascii.eqb c' "."
            end
      then "[" +:+ d +:+ "]" +:+ bracket_indices n rest
      else String c (bracket_indices n r)
    else String c (bracket_indices n r).
Proof. reflexivity. Qed.

Lemma bracket_indices_key k rest n :
  JS.includes JS.dot k = false ->
  (String.length (k +:+ rest) <= n)%nat ->
  bracket_indices n (k +:+ rest) = k +:+ bracket_indices n rest.
Proof.
  revert n. induction k as [|a k IH]; intros n Hk Hn; [reflexivity |].
  simpl in Hk. destruct (Ascii.eqb a JS.dot) eqn:Ha; [discriminate |].
  simpl in Hn. destruct n as [|n]; [lia |].
  rewrite !append_cons, bracket_indices_S.
  change (Ascii.eqb a ".") with (Ascii.eqb a JS.dot). rewrite Ha.
  rewrite (IH n Hk ltac:(lia)). do 2 f_equal.
  rewrite length_append in Hn. apply bracket_indices_fuel; lia.
Qed.

Lemma concat_all_cons x (l : list string) :
  concat_all (x :: l) = x +:+ concat_all l.
Proof. reflexivity. Qed.

Lemma dot_append (x : string) : "." +:+ x = String "." x.
Proof. reflexivity. Qed.

(** The replacement made for sqlite, key by key. *)
Lemma bracket_indices_keys keys :
  Forall (fun k => JS.includes JS.dot k = false) keys ->
  forall n,
    (String.length (concat_all (map (fun k => "." +:+ k) keys)) <= n)%nat ->
    bracket_indices n (concat_all (map (fun k => "." +:+ k) keys))
    = concat_all (map sqlite_segment keys).
Proof.
  induction 1 as [|k keys Hk _ IH]; intros n Hn.
  - destruct n; reflexivity.
  - cbn [map] in *. rewrite !concat_all_cons in *.
    pose proof (key_end_keys keys) as Hrest.
    set (rest := concat_all (map (fun k => "." +:+ k) keys)) in *.
    set (out := concat_all (map sqlite_segment keys)) in *.
    rewrite dot_append, append_cons in Hn |- *.
    cbn [String.length] in Hn. rewrite length_append in Hn.
    destruct n as [|n]; [lia |].
    rewrite bracket_indices_S.
    change (Ascii.eqb "." ".") with true. cbv iota.
    pose proof (span_digits_key k rest Hk Hrest) as Hspan.
    unfold sqlite_segment, is_index.
    destruct (digits_only k) eqn:Hd.
    + rewrite Hspan. destruct (JS.truthy k) eqn:Htk; cbn [andb].
      * assert (match rest with
                | EmptyString => true
                | String c' _ => Ascii.eqb c' "."
                end = true) as ->.
        { destruct Hrest as [-> | [r ->]]; reflexivity. }
        rewrite (IH n ltac:(lia)). now rewrite !append_assoc.
      * destruct k; [| discriminate].
        change (EmptyString +:+ rest) with rest.
        now rewrite (IH n ltac:(lia)).
    + destruct Hspan as (d & c & r & -> & Hc). rewrite Hc, !andb_false_r.
      rewrite (bracket_indices_key k rest n Hk);
        [| rewrite length_append; lia].
      now rewrite (IH n ltac:(lia)).
Qed.

Lemma simple_key_parts k :
  simple_key k = true ->
  JS.truthy k = true /\ JS.includes "." k = false
  /\ JS.includes "[" k = false /\ JS.includes "]" k = false.
Proof.
  unfold simple_key. rewrite !andb_true_iff, !negb_true_iff. tauto.
Qed.

Lemma span_prop_free k rest :
  JS.includes "." k = false -> JS.includes "[" k = false ->
  JS.includes "]" k = false -> key_end rest ->
  Lodash.span_prop (k +:+ rest) = (k, rest).
Proof.
  intros Hd Ho Hc Hrest. induction k as [|a k IH].
  - destruct Hrest as [-> | [r ->]]; reflexivity.
  - simpl in Hd, Ho, Hc.
    destruct (Ascii.eqb a ".") eqn:H1; [discriminate |].
    destruct (Ascii.eqb a "[") eqn:H2; [discriminate |].
    destruct (Ascii.eqb a "]") eqn:H3; [discriminate |].
    simpl String.append. cbn [Lodash.span_prop]. rewrite H1, H2, H3.
    cbn [orb]. now rewrite (IH Hd Ho Hc).
Qed.

Lemma empty_key_ahead_key a k rest :
  Ascii.eqb a "." = false -> Ascii.eqb a "[" = false ->
  Lodash.empty_key_ahead (String "." (String a (k +:+ rest))) = false.
Proof.
  intros H1 H2. unfold Lodash.empty_key_ahead.
  destruct a as [[] [] [] [] [] [] [] []]; try reflexivity; discriminate.
Qed.

Lemma scan_keys_dot n a r :
  Lodash.scan_keys (S n) (String "." (String a r))
  = if Lodash.empty_key_ahead (String "." (String a r))
    then EmptyString :: Lodash.scan_keys n (String a r)
    else Lodash.scan_keys n (String a r).
Proof. reflexivity. Qed.

Lemma scan_keys_prop n s p rest :
  s <> EmptyString -> Lodash.span_prop s = (p, rest) -> JS.truthy p = true ->
  Lodash.scan_keys (S n) s = p :: Lodash.scan_keys n rest.
Proof.
  intros Hs Hp Ht. destruct s as [|c r]; [congruence |].
  cbn [Lodash.scan_keys]. now rewrite Hp, Ht.
Qed.

(** The keys found in dot-prefixed simple keys are those keys. *)
Lemma scan_keys_simple keys :
  Forall (fun k => simple_key k = true) keys ->
  forall n,
    (String.length (concat_all (map (fun k => "." +:+ k) keys)) <= n)%nat ->
    Lodash.scan_keys n (concat_all (map (fun k => "." +:+ k) keys)) = keys.
Proof.
  induction 1 as [|k keys Hk _ IH]; intros n Hn.
  - destruct n; reflexivity.
  - cbn [map] in *. rewrite !concat_all_cons in *.
    pose proof (key_end_keys keys) as Hrest.
    set (rest := concat_all (map (fun k => "." +:+ k) keys)) in *.
    destruct (simple_key_parts k Hk) as (Ht & Hd & Ho & Hc).
    rewrite dot_append, append_cons in Hn |- *.
    cbn [String.length] in Hn. rewrite length_append in Hn.
    destruct k as [|a k]; [discriminate |].
    assert (Ascii.eqb a "." = false) as H1.
    { simpl in Hd. destruct (Ascii.eqb a "."); [discriminate | reflexivity]. }
    assert (Ascii.eqb a "[" = false) as H2.
    { simpl in Ho. destruct (Ascii.eqb a "["); [discriminate | reflexivity]. }
    cbn [String.length] in Hn.
    destruct n as [|[|n]]; [lia | lia |].
    rewrite append_cons.
    rewrite scan_keys_dot, (empty_key_ahead_key a k rest H1 H2).
    rewrite (scan_keys_prop n (String a (k +:+ rest)) (String a k) rest);
      [| discriminate
       | exact (span_prop_free (String a k) rest Hd Ho Hc Hrest)
       | reflexivity].
    f_equal. apply IH. lia.
Qed.

Lemma stringToPath_join keys :
  Forall (fun k => simple_key k = true) keys ->
  Lodash.stringToPath (JS.join "." keys) = keys.
Proof.
  intros Hkeys. destruct keys as [|k keys]; [reflexivity |].
  inversion Hkeys as [|? ? Hk Hks]; subst.
  rewrite join_keys.
  pose proof (key_end_keys keys) as Hrest.
  pose proof (scan_keys_simple keys Hks) as Hscan.
  set (rest := concat_all (map (fun k => "." +:+ k) keys)) in *.
  destruct (simple_key_parts k Hk) as (Ht & Hd & Ho & Hc).
  destruct k as [|a k]; [discriminate |].
  unfold Lodash.stringToPath.
  assert (Ascii.eqb a "." = false) as H1.
  { simpl in Hd. destruct (Ascii.eqb a "."); [discriminate | reflexivity]. }
  rewrite append_cons.
  assert ((match String a (k +:+ rest) with
           | String "." _ => [EmptyString]
           | _ => []
           end) = []) as ->.
  { destruct a as [[] [] [] [] [] [] [] []]; try reflexivity; discriminate. }
  cbn [app String.length].
  rewrite (scan_keys_prop _ (String a (k +:+ rest)) (String a k) rest);
    [| discriminate
     | exact (span_prop_free (String a k) rest Hd Ho Hc Hrest)
     | reflexivity].
  f_equal. apply Hscan. rewrite length_append. lia.
Qed.

End PathFacts.

Section MoreJsonProperties.

Context `{Externals}.
Variable g : QueryGenerator.

Lemma split_prefix c p rest :
  JS.includes c p = false ->
  JS.split c (p +:+ String c rest) = p :: JS.split c rest.
Proof.
  induction p as [|a p IH]; simpl.
  - now rewrite Ascii.eqb_refl.
  - destruct (Ascii.eqb a c); [discriminate |].
    intros Hp. now rewrite (IH Hp).
Qed.

Lemma jsonPath_unsupported column path :
  dialect g <> "mysql" -> dialect g <> "sqlite" -> dialect g <> "postgres" ->
  jsonPathExtractionQuery g column path = Err (UnsupportedDialect (dialect g)).
Proof.
  intros H1 H2 H3. unfold jsonPathExtractionQuery.
  apply String.eqb_neq in H1, H2, H3. now rewrite H1, H2, H3.
Qed.

(** A path into a JSON attribute of the parent, alone in the array. *)
Lemma quote_json_path_alone m attributes attr p rest connector :
  rawAttributes m = Some attributes ->
  attributes !! p = Some attr ->
  from_option instanceof_JSON false (type attr) = true ->
  JS.includes JS.dot p = false ->
  associations m ≫= (.!! (p +:+ "." +:+ rest)) = None ->
  (forall a, attributes !! (p +:+ "." +:+ rest) = Some a ->
             field a = p +:+ "." +:+ rest) ->
  quote g (IArray [IString (p +:+ "." +:+ rest)]) (Some m) connector
  = jsonPathExtractionQuery g
      (quoteIdentifiers g (name m +:+ "." +:+ field attr))
      (PathArray (JS.split JS.dot rest)).
Proof.
  intros Hm Hattr Hjson Hp Hassoc Hren.
  rewrite quote_array. cbv zeta. unfold rewrite. cbn [rewrite_from].
  rewrite rewrite_item_string.
  change (fst (previous_of (Some m) None)) with (Some m).
  rewrite rewrite_string_dotted;
    [| rewrite includes_append; apply orb_true_iff; right; reflexivity
     | exact Hassoc
     | intros a; rewrite Hm; exact (Hren a)].
  rewrite (rewrite_dotted_unknown_prefix g m attributes p rest Hm Hp).
  rewrite (get_own _ _ _ Hattr), Hjson.
  change (p +:+ "." +:+ rest) with (p +:+ String JS.dot rest).
  rewrite (split_prefix _ _ _ Hp). cbn [JS.slice drop].
  destruct (jsonPathExtractionQuery g _ _) as [sql|e]; reflexivity.
Qed.

End MoreJsonProperties.

(** X13.  Under a dialect other than mysql, sqlite and postgres,
    [jsonPathExtractionQuery] fails with the unsupported-dialect error
    for every column and path, and so does [quote] on a path into a JSON
    attribute of the parent. *)
Theorem json_unsupported_dialect `{Externals} (g : QueryGenerator) :
  dialect g <> "mysql" -> dialect g <> "sqlite" -> dialect g <> "postgres" ->
  (forall column path,
      jsonPathExtractionQuery g column path = Err (UnsupportedDialect (dialect g)))
  /\ (forall m attributes attr p rest connector,
        rawAttributes m = Some attributes ->
        attributes !! p = Some attr ->
        from_option instanceof_JSON false (type attr) = true ->
        JS.includes JS.dot p = false ->
        associations m ≫= (.!! (p +:+ "." +:+ rest)) = None ->
        (forall a, attributes !! (p +:+ "." +:+ rest) = Some a ->
                   field a = p +:+ "." +:+ rest) ->
        quote g (IArray [IString (p +:+ "." +:+ rest)]) (Some m) connector
        = Err (UnsupportedDialect (dialect g))).
Proof.
  intros H1 H2 H3. split.
  - intros column path. now apply jsonPath_unsupported.
  - intros m attributes attr p rest connector Hm Hattr Hjson Hp Hassoc Hren.
    rewrite (quote_json_path_alone g m attributes attr p rest connector);
      try assumption.
    now apply jsonPath_unsupported.
Qed.

Lemma json_unsupported_dialect_witness :
  quote (H := Sample.externals) Sample.mssql
        (IArray [IString "meta.views"]) (Some Sample.Post) None
  = Err (UnsupportedDialect "mssql").
Proof.
  refine (proj2 (json_unsupported_dialect (H := Sample.externals) Sample.mssql
                   ltac:(discriminate) ltac:(discriminate) ltac:(discriminate))
                Sample.Post _ {| field := "meta"; type := Some Sample.json_type |}
                "meta" "views" None eq_refl eq_refl eq_refl eq_refl eq_refl _).
  intros a. vm_compute. discriminate.
Defined.

(** X14.  Under sqlite, for keys free of dots, the path handed to the
    escaper is a dollar sign followed by the keys in order: a key made of
    digits between brackets, any other key after a dot. *)
Theorem jsonPath_sqlite_segments `{Externals} (g : QueryGenerator)
        (column : string) (keys : list string) :
  dialect g = "sqlite" ->
  Forall (fun k => JS.includes JS.dot k = false) keys ->
  jsonPathExtractionQuery g column (PathArray keys)
  = let* literal :=
      SqlString_escape (VString ("$" +:+ concat_all (map sqlite_segment keys)))
                       (opt_timezone (options g)) "sqlite" in
    Ok ("json_extract(" +:+ quotedColumn g column +:+ ", " +:+ literal +:+ ")").
Proof.
  intros Hd Hkeys. rewrite (jsonPath_sqlite g column _ Hd). cbv zeta.
  cbn [toPath]. rewrite join_keys.
  set (rest := concat_all (map (fun k => "." +:+ k) keys)).
  assert (bracket_indices (String.length ("$" +:+ rest)) ("$" +:+ rest)
          = "$" +:+ concat_all (map sqlite_segment keys)) as ->.
  { change ("$" +:+ rest) with (String "$" rest).
    cbn [String.length]. rewrite bracket_indices_S.
    change (Ascii.eqb "$" ".") with false. cbv iota.
    f_equal. now apply bracket_indices_keys. }
  reflexivity.
Qed.

Lemma jsonPath_sqlite_segments_witness :
  jsonPathExtractionQuery (H := Sample.externals) Sample.sqlite "`data`"
                          (PathArray ["items"; "12"; "3d"; "0"])
  = Ok "json_extract(`data`, '$.items[12].3d[0]')".
Proof.
  apply (jsonPath_sqlite_segments (H := Sample.externals) Sample.sqlite
           "`data`" ["items"; "12"; "3d"; "0"] eq_refl).
  repeat constructor.
Defined.

(** X15.  A dotted path whose keys are not empty and free of dots and
    brackets is read as the array of its keys: [jsonPathExtractionQuery]
    gives the same for the keys joined by dots as for the array. *)
Theorem jsonPath_dotted_as_keys `{Externals} (g : QueryGenerator)
        (column : string) (keys : list string) :
  Forall (fun k => simple_key k = true) keys ->
  toPath (PathString (JS.join "." keys)) = keys
  /\ jsonPathExtractionQuery g column (PathString (JS.join "." keys))
     = jsonPathExtractionQuery g column (PathArray keys).
Proof.
  intros Hkeys.
  assert (toPath (PathString (JS.join "." keys)) = keys) as Hpath
      by (now apply stringToPath_join).
  split; [exact Hpath |].
  unfold jsonPathExtractionQuery. now rewrite Hpath.
Qed.

Lemma jsonPath_dotted_as_keys_witness :
  toPath (PathString "address.geo.lat") = ["address"; "geo"; "lat"].
Proof.
  apply (proj1 (jsonPath_dotted_as_keys (H := Sample.externals) Sample.mysql
                  "data" ["address"; "geo"; "lat"] ltac:(repeat constructor))).
Defined.

(** X16.  A string that is a path into a JSON attribute of the parent,
    alone in the array, gives exactly the extraction of the path after the
    attribute from the attribute's column qualified by the model name
    (cut at its last dot and quoted); the name of the parent is not put
    in front a second time. *)
Theorem quote_json_attribute_path `{Externals} (g : QueryGenerator)
        (m : Model) (attributes : gmap string Attribute) (attr : Attribute)
        (p rest : string) (connector : option string) :
  rawAttributes m = Some attributes ->
  attributes !! p = Some attr ->
  from_option instanceof_JSON false (type attr) = true ->
  JS.includes JS.dot p = false ->
  associations m ≫= (.!! (p +:+ "." +:+ rest)) = None ->
  (forall a, attributes !! (p +:+ "." +:+ rest) = Some a ->
             field a = p +:+ "." +:+ rest) ->
  quote g (IArray [IString (p +:+ "." +:+ rest)]) (Some m) connector
  = jsonPathExtractionQuery g
      (quoteIdentifiers g (name m +:+ "." +:+ field attr))
      (PathArray (JS.split JS.dot rest)).
Proof. apply quote_json_path_alone. Qed.

Lemma quote_json_attribute_path_witness :
  quote (H := Sample.externals) Sample.mysql
        (IArray [IString "meta.stats.views"]) (Some Sample.Post) None
  = Ok ("(`Post`.`meta`->>'$." +:+ JS.dq +:+ "stats" +:+ JS.dq +:+ "."
          +:+ JS.dq +:+ "views" +:+ JS.dq +:+ "')").
Proof.
  refine (quote_json_attribute_path (H := Sample.externals) Sample.mysql
            Sample.Post _ {| field := "meta"; type := Some Sample.json_type |}
            "meta" "stats.views" None eq_refl eq_refl eq_refl eq_refl eq_refl _).
  intros a. vm_compute. discriminate.
Defined.

(** ** More on quote *)

Section MoreQuoteProperties.

Context `{Externals}.
Variable g : QueryGenerator.

Lemma rewrite_item_other parent index previous item :
  is_rewritable item = false ->
  rewrite_item g parent index previous item = Ok item.
Proof.
  intros Hi. unfold rewrite_item.
  destruct (previous_of parent previous) as [[m|] pa];
    destruct item; try discriminate; reflexivity.
Qed.

Lemma rewrite_from_length parent index previous items items' :
  rewrite_from g parent index previous items = Ok items' ->
  length items' = length items.
Proof.
  revert index previous items'.
  induction items as [|item items IH]; intros index previous items';
    cbn [rewrite_from].
  - now intros [= <-].
  - destruct (rewrite_item g parent index previous item) as [item'|];
      cbn [bind]; [| discriminate].
    destruct (rewrite_from g parent (S index) (Some item') items) as [rest'|] eqn:Er;
      cbn [bind]; [| discriminate].
    intros [= <-]. cbn [length]. f_equal. eapply IH, Er.
Qed.

Lemma rewrite_from_lookup parent index previous items items' :
  rewrite_from g parent index previous items = Ok items' ->
  forall i item, items !! i = Some item -> is_rewritable item = false ->
                 items' !! i = Some item.
Proof.
  revert index previous items'.
  induction items as [|x items IH]; intros index previous items';
    cbn [rewrite_from].
  - intros _ i item Hi. now rewrite lookup_nil in Hi.
  - destruct (rewrite_item g parent index previous x) as [x'|] eqn:Ex;
      cbn [bind]; [| discriminate].
    destruct (rewrite_from g parent (S index) (Some x') items) as [rest'|] eqn:Er;
      cbn [bind]; [| discriminate].
    intros [= <-] [|i] item Hi Hrw.
    + injection Hi as ->. rewrite (rewrite_item_other _ _ _ _ Hrw) in Ex.
      now injection Ex as <-.
    + exact (IH _ _ _ Er i item Hi Hrw).
Qed.

(** The second loop never runs past the last element. *)
Lemma scan_bound items :
  forall i0 names i names',
    items <> [] -> scan i0 items names = Ok (i, names') ->
    (i0 <= i < i0 + length items)%nat.
Proof.
  induction items as [|x items IH]; intros i0 names i names' Hne; [congruence |].
  destruct items as [|y rest].
  - cbn. intros [= <- _]. lia.
  - assert (forall names0,
               scan (S i0) (y :: rest) names0 = Ok (i, names') ->
               (i0 <= i < i0 + length (x :: y :: rest))%nat) as Hnext.
    { intros names0 Hs. apply IH in Hs; [| discriminate]. cbn [length] in *. lia. }
    cbn [scan]. destruct x; try apply Hnext;
      try (intros [= <- _]; cbn [length]; lia); discriminate.
Qed.

Lemma append_results_failure (f : Item -> Result string) items sql x e :
  In x items -> f x = Err e -> exists e', append_results f items sql = Err e'.
Proof.
  revert sql. induction items as [|y items IH]; intros sql Hin Hx; [contradiction |].
  cbn [append_results]. destruct (f y) as [text|e0] eqn:Ey; cbn [bind]; [| eauto].
  destruct Hin as [-> | Hin]; [congruence |]. now apply IH.
Qed.

Lemma rewrite_string_none index s :
  rewrite_string g None index s = Ok (string_item index s).
Proof.
  unfold rewrite_string, string_item.
  destruct (if (0 <? index)%nat then _ else _); reflexivity.
Qed.

Lemma previous_of_none previous :
  (forall a, previous <> Some (IAssociation a)) ->
  previous_of None previous = (None, None).
Proof.
  intros Hp. unfold previous_of.
  assert (bool_decide (is_Some (@None Model)) = false) as ->.
  { apply bool_decide_eq_false. now intros [? ?]. }
  rewrite andb_false_r.
  destruct previous as [[]|]; try reflexivity. now destruct (Hp a).
Qed.

Lemma string_item_not_association index s a :
  Some (string_item index s) <> Some (IAssociation a).
Proof.
  unfold string_item. destruct (if (0 <? index)%nat then _ else _); discriminate.
Qed.

Lemma rewrite_from_strings strs :
  forall index previous,
    (forall a, previous <> Some (IAssociation a)) ->
    rewrite_from g None index previous (map IString strs)
    = Ok (string_items index strs).
Proof.
  induction strs as [|s strs IH]; intros index previous Hp; [reflexivity |].
  cbn [map rewrite_from string_items].
  rewrite rewrite_item_string, (previous_of_none previous Hp).
  cbn [fst]. rewrite rewrite_string_none. cbn [bind].
  rewrite IH; [reflexivity |].
  intros a. apply string_item_not_association.
Qed.

Lemma quote_string_item index s parent connector :
  quote g (string_item index s) parent connector = Ok (string_text g index s).
Proof.
  unfold string_item, string_text.
  destruct (if (0 <? index)%nat then _ else _); reflexivity.
Qed.

Lemma quote_all_string_items strs parent connector :
  forall index,
    quote_all (fun item => quote g item parent connector) (string_items index strs)
    = Ok (string_texts g index strs).
Proof.
  induction strs as [|s strs IH]; intros index; [reflexivity |].
  cbn [string_items quote_all string_texts].
  rewrite quote_string_item. cbn [bind]. now rewrite IH.
Qed.

Lemma scan_string_items strs :
  scan 0 (string_items 0 strs) [] = Ok (0%nat, []).
Proof. destruct strs as [|s [|s2 strs]]; reflexivity. Qed.

End MoreQuoteProperties.

(** X17.  The first loop of [quote] returns as many elements as it was
    given, and leaves every element that is not a string, a model or a
    model-and-alias object as it is, at its place. *)
Theorem rewrite_keeps_shape `{Externals} (g : QueryGenerator)
        (parent : option Model) (collection collection' : list Item) :
  rewrite g parent collection = Ok collection' ->
  length collection' = length collection
  /\ (forall i item, collection !! i = Some item -> is_rewritable item = false ->
                     collection' !! i = Some item).
Proof.
  intros Hrw. split.
  - eapply rewrite_from_length, Hrw.
  - eapply rewrite_from_lookup, Hrw.
Qed.

Lemma rewrite_keeps_shape_witness :
  length [IAssociation Sample.posts; IMethod (Literal "RAND()")] = 2%nat.
Proof.
  exact (proj1 (rewrite_keeps_shape (H := Sample.externals) Sample.postgres
                  (Some Sample.User)
                  [IString "posts"; IMethod (Literal "RAND()")]
                  [IAssociation Sample.posts; IMethod (Literal "RAND()")]
                  eq_refl)).
Defined.

(** X18.  An array whose last element is an association once the first
    loop is through never gives SQL: [quote] fails on it, whatever comes
    before. *)
Theorem quote_ending_in_association_fails `{Externals} (g : QueryGenerator)
        (parent : option Model) (connector : option string)
        (collection collection' : list Item) (a : Association) :
  rewrite g parent collection = Ok collection' ->
  last collection' = Some (IAssociation a) ->
  exists e, quote g (IArray collection) parent connector = Err e.
Proof.
  intros Hrw Hlast. rewrite quote_array. cbv zeta. rewrite Hrw. cbn [bind].
  destruct (scan 0 collection' []) as [[i names]|e] eqn:Hscan; [| eauto].
  cbn [bind fst snd].
  apply last_Some in Hlast as [front ->].
  apply scan_bound in Hscan; [| now destruct front].
  rewrite length_app in Hscan. cbn [length] in Hscan.
  apply (append_results_failure _ _ _ (IAssociation a)
           (UnknownStructure (inspect (IAssociation a)))).
  - unfold JS.slice. rewrite drop_app_le by lia. apply in_or_app. right. now left.
  - reflexivity.
Qed.

Lemma quote_ending_in_association_fails_witness :
  exists e,
    quote (H := Sample.externals) Sample.postgres (IArray [IString "posts"])
          (Some Sample.User) None = Err e.
Proof.
  exact (quote_ending_in_association_fails (H := Sample.externals)
           Sample.postgres (Some Sample.User) None [IString "posts"]
           [IAssociation Sample.posts] Sample.posts eq_refl eq_refl).
Defined.

(** X19.  Without a parent, an array of strings gives the text of each
    string in turn, with nothing in front and nothing in between: an
    order token past the first position gives a space and the token,
    every other string is quoted by [quoteIdentifiers]; the empty array
    gives the empty text. *)
Theorem quote_strings_without_parent `{Externals} (g : QueryGenerator)
        (strs : list string) (connector : option string) :
  quote g (IArray (map IString strs)) None connector
  = Ok (concat_all (string_texts g 0 strs)).
Proof.
  rewrite quote_array. cbv zeta. unfold rewrite.
  rewrite rewrite_from_strings by discriminate. cbn [bind].
  rewrite scan_string_items. cbn [bind fst snd]. unfold JS.slice.
  rewrite drop_0, append_results_all, quote_all_string_items. cbn [bind].
  unfold prefix. cbn [Nat.ltb Nat.leb].
  destruct (head (string_items 0 strs)) as [[]|]; reflexivity.
Qed.

(** X20.  A model in the array that is not the through model of the
    association before it, and for which the current model has no
    association, by no alias and by its own name, makes [quote] fail with
    the error that names it, whatever follows. *)
Theorem quote_unassociated_model `{Externals} (g : QueryGenerator)
        (parent : option Model) (connector : option string)
        (before before' after : list Item) (m model : Model) :
  rewrite_from g parent 0 None before = Ok before' ->
  fst (previous_of parent (last before')) = Some m ->
  (forall t, snd (previous_of parent (last before')) ≫= through = Some t ->
             same_model t model = false) ->
  getAssociationForAlias m model None = None ->
  getAssociationForAlias m model (Some (name model)) = None ->
  quote g (IArray (before ++ IModel model :: after)) parent connector
  = Err (AssociationNotFound (name model)).
Proof.
  intros Hbefore Hm Hthrough Hnone Hname.
  rewrite quote_array. cbv zeta. unfold rewrite.
  rewrite (rewrite_from_app g parent 0 None before _ before' Hbefore).
  cbn [rewrite_from Nat.add].
  assert ((match last before' with Some x => Some x | None => None end)
          = last before') as -> by (destruct (last before'); reflexivity).
  assert (rewrite_item g parent (length before) (last before') (IModel model)
          = Err (AssociationNotFound (name model))) as ->; [| reflexivity].
  unfold rewrite_item.
  destruct (previous_of parent (last before')) as [pm pa].
  cbn [fst snd] in Hm, Hthrough. subst pm.
  unfold resolve_model. cbn [JS.truthy_opt negb andb].
  assert (match pa ≫= through with
          | Some t => same_model t model
          | None => false
          end = false) as ->.
  { destruct (pa ≫= through) as [t|]; [now apply Hthrough | reflexivity]. }
  now rewrite Hnone, Hname.
Qed.

Lemma quote_unassociated_model_witness :
  quote (H := Sample.externals) Sample.postgres
        (IArray [IString "posts"; IModel Sample.Comment; IString "createdAt"])
        (Some Sample.User) None
  = Err (AssociationNotFound "Comment").
Proof.
  refine (quote_unassociated_model (H := Sample.externals) Sample.postgres
            (Some Sample.User) None [IString "posts"]
            [IAssociation Sample.posts] [IString "createdAt"]
            Sample.Post Sample.Comment eq_refl eq_refl _ eq_refl eq_refl).
  intros t. vm_compute. discriminate.
Defined.

(** X21.  A string alone in the array that names an attribute of the
    parent stored under another column name, and that is read neither as
    an association of the parent nor, the parent having associations, as
    a member that every object inherits, gives the quoted name of the
    parent, a dot, and that column name quoted by [quoteIdentifiers]. *)
Theorem quote_attribute_column `{Externals} (g : QueryGenerator)
        (m : Model) (attr : Attribute) (s : string) (connector : option string) :
  associations m ≫= (.!! s) = None ->
  (is_Some (associations m) -> JSObject.inherited s = false) ->
  rawAttributes m ≫= (.!! s) = Some attr ->
  field attr <> s ->
  quote g (IArray [IString s]) (Some m) connector
  = Ok (quoteIdentifier g (name m) false +:+ "."
          +:+ quoteIdentifiers g (field attr)).
Proof.
  intros Hassoc Hown Hattr Hne.
  rewrite quote_array. cbv zeta. unfold rewrite. cbn [rewrite_from].
  rewrite rewrite_item_string.
  change (fst (previous_of (Some m) None)) with (Some m).
  assert (rewrite_string g (Some m) 0 s = Ok (IString (field attr))) as ->.
  { unfold rewrite_string. cbn [Nat.ltb Nat.leb].
    rewrite (get_defined_undefined _ _ Hassoc Hown).
    rewrite (get_defined_own _ _ _ Hattr).
    assert (String.eqb s (field attr) = false) as ->
        by (apply String.eqb_neq; congruence).
    reflexivity. }
  cbn [bind scan fst snd JS.slice drop append_results].
  rewrite quote_string. cbn [bind]. unfold prefix. cbn [Nat.ltb Nat.leb head].
  now rewrite append_assoc.
Qed.

Lemma quote_attribute_column_witness :
  quote (H := Sample.externals) Sample.mysql (IArray [IString "createdAt"])
        (Some Sample.Comment) None
  = Ok "`Comment`.`created_at`".
Proof.
  apply (quote_attribute_column (H := Sample.externals) Sample.mysql
           Sample.Comment {| field := "created_at"; type := None |}
           "createdAt" None eq_refl (fun _ => eq_refl) eq_refl).
  discriminate.
Defined.

(** An attribute named after an inherited member is not reached: the
    member is taken for an association, and what it leaves in the array
    is refused. *)
Example quote_attribute_named_constructor :
  quote (H := Sample.externals) Sample.mysql (IArray [IString "constructor"])
        (Some Sample.Odd) None
  = Err (UnknownStructure "[object]").
Proof. reflexivity. Qed.

(** ** The constructor *)

(** X22.  The constructor fails when the sequelize instance is missing,
    and then when the dialect is missing; otherwise the generator bears
    the name of the dialect and the options of the instance, and, since
    the constructor does not set [typeValidation], [escape] on the
    generator as constructed calls no validator. *)
Theorem construct_generator `{Externals} (o : ConstructorOptions) :
  (given_sequelize o = None -> construct o = inl InitializedWithoutSequelize)
  /\ (is_Some (given_sequelize o) -> given_dialect o = None ->
      construct o = inl InitializedWithoutDialect)
  /\ (forall opts d, given_sequelize o = Some opts -> given_dialect o = Some d ->
        exists g,
          construct o = inr g
          /\ dialect g = dialect_name d /\ options g = opts
          /\ forall value fld eopts w,
               ~ In (CallValidate w) (escape_calls g value fld eopts)).
Proof.
  unfold construct. split; [| split].
  - now intros ->.
  - intros [opts ->] ->. reflexivity.
  - intros opts d -> ->. eexists. split; [reflexivity |].
    split; [reflexivity |]. split; [reflexivity |].
    intros value fld eopts. now apply escape_calls_unvalidated.
Qed.

Lemma construct_generator_witness :
  exists g,
    construct {| given_sequelize := Some (options Sample.mysql);
                 given_dialect := Some (_dialect Sample.mysql) |} = inr g
    /\ dialect g = "mysql".
Proof.
  destruct (proj2 (proj2 (construct_generator (H := Sample.externals)
                            {| given_sequelize := Some (options Sample.mysql);
                               given_dialect := Some (_dialect Sample.mysql) |}))
                  _ _ eq_refl eq_refl) as (g & Hg & Hd & _).
  exists g. split; [exact Hg | exact Hd].
Defined.
